(** * The API request gate: sliding-window rate limiter, route classifier
      and middleware, with the properties of its specification.

    Sources embedded here:
    - [src/lib/rateLimit.ts]  (module [RateLimit])
    - [middleware.ts]         (module [Gate])
    - [next.config.js]        (the static header rule, in [Gate])
    - [src/lib/middleware/getAuthenticatedUser.ts]  (module [AuthHelper])
    - [app/api/checkout/route.ts] and the header sent by
      [src/lib/stripe/stripeService.ts]             (module [Checkout])

    JavaScript numbers that hold millisecond timestamps and counters are
    modelled as [Z]; the one place where the source can produce [NaN]
    ([undefined + windowMs]) is modelled by [None]. *)

From Stdlib Require Import ZArith Ascii String DecimalString.
From stdpp Require Import gmap strings list sorting.

Local Open Scope Z_scope.

(** ** ECMAScript built-ins the sources call *)

Module Js.

(** [n.toString()] for an integral number. *)
Definition toString (n : Z) : string :=
  NilZero.string_of_int (Z.to_int n).

(** [Math.ceil(x / d)] for integers [x] and a positive [d]. *)
Definition ceil_div (x d : Z) : Z := - ((- x) / d).

(** [s.startsWith(p)]. *)
Definition startsWith (s p : string) : bool := String.prefix p s.

(** [s.endsWith(suffix)]: [s] itself or one of its tails is [suffix]. *)
Fixpoint endsWith (s suffix : string) : bool :=
  String.eqb s suffix ||
  match s with
  | EmptyString => false
  | String _ s' => endsWith s' suffix
  end.

(** [s.slice(0, -n)]: all but the last [n] characters. *)
Definition slice_off (n : nat) (s : string) : string :=
  String.substring 0 (String.length s - n) s.

(** White space as matched by the regular expression class [\s]
    (the ASCII part of it). *)
Definition is_ws (c : ascii) : bool :=
  let n := nat_of_ascii c in
  ((9 <=? n) && (n <=? 13))%nat || (n =? 32)%nat.

Definition flush_ws (run : list ascii) : string :=
  match run with
  | [] => EmptyString
  | [c] => String c EmptyString
  | _ => " "%string
  end.

(** [s.replace(/\s{2,}/g, ' ')]; [run] is the white space read so far. *)
Fixpoint collapse_ws (run : list ascii) (s : string) : string :=
  match s with
  | EmptyString => flush_ws run
  | String c s' =>
      if is_ws c then collapse_ws (c :: run) s'
      else flush_ws run +:+ String c (collapse_ws [] s')
  end.

Fixpoint trimStart (s : string) : string :=
  match s with
  | EmptyString => EmptyString
  | String c s' => if is_ws c then trimStart s' else s
  end.

Fixpoint trimEnd (s : string) : string :=
  match s with
  | EmptyString => EmptyString
  | String c s' =>
      let r := trimEnd s' in
      if is_ws c && String.eqb r EmptyString then EmptyString
      else String c r
  end.

(** [s.trim()]. *)
Definition trim (s : string) : string := trimEnd (trimStart s).

Definition lower_ascii (c : ascii) : ascii :=
  let n := nat_of_ascii c in
  if ((65 <=? n) && (n <=? 90))%nat then ascii_of_nat (n + 32) else c.

Fixpoint toLowerCase (s : string) : string :=
  match s with
  | EmptyString => EmptyString
  | String c s' => String (lower_ascii c) (toLowerCase s')
  end.

(** A [Headers] object: names are case-insensitive and kept in lower
    case; [set] replaces, [get] returns [null] ([None]) when absent. *)
Definition headers_set (name value : string) (h : gmap string string)
  : gmap string string :=
  <[toLowerCase name := value]> h.

Definition headers_get (name : string) (h : gmap string string)
  : option string :=
  h !! toLowerCase name.

Definition headers_of (l : list (string * string)) : gmap string string :=
  foldl (λ h kv, headers_set kv.1 kv.2 h) ∅ l.

(** *** [Headers.prototype.set] (Fetch standard)

    [set(name, value)] first normalizes the value: leading and trailing
    HTTP whitespace (tab, line feed, carriage return, space) is removed.
    The normalized value is a header value when it holds no NUL, line feed
    or carriage return (it has no leading or trailing tab or space, being
    normalized); for any other value [set] throws a [TypeError].  Strings
    are sequences of code units below 256 here, which is what a
    [ByteString] holds. *)

Definition is_http_ws (c : ascii) : bool :=
  let n := nat_of_ascii c in
  (n =? 9)%nat || (n =? 10)%nat || (n =? 13)%nat || (n =? 32)%nat.

Fixpoint stripStart (s : string) : string :=
  match s with
  | EmptyString => EmptyString
  | String c s' => if is_http_ws c then stripStart s' else s
  end.

Fixpoint stripEnd (s : string) : string :=
  match s with
  | EmptyString => EmptyString
  | String c s' =>
      let r := stripEnd s' in
      if is_http_ws c && String.eqb r EmptyString then EmptyString
      else String c r
  end.

Definition headerValueNormalize (potentialValue : string) : string :=
  stripEnd (stripStart potentialValue).

Definition is_nul_or_newline (c : ascii) : bool :=
  let n := nat_of_ascii c in
  (n =? 0)%nat || (n =? 10)%nat || (n =? 13)%nat.

Fixpoint isValidHeaderValue (potentialValue : string) : bool :=
  match potentialValue with
  | EmptyString => true
  | String c s' => negb (is_nul_or_newline c) && isValidHeaderValue s'
  end.

(** *** [new Date(t).toISOString()] *)

Definition digit (d : Z) : ascii := ascii_of_nat (48 + Z.to_nat d).

(** [n] in decimal, on exactly [width] digits. *)
Fixpoint pad (width : nat) (n : Z) : string :=
  match width with
  | O => EmptyString
  | S w => pad w (n / 10) +:+ String (digit (n mod 10)) EmptyString
  end.

Definition msPerDay : Z := 86400000.

(** The largest time value a [Date] holds. *)
Definition maxTime : Z := 8640000000000000.

(** Year, month and day of the proleptic Gregorian calendar for a day
    number counted from 1970-01-01. *)
Definition civil (day : Z) : Z * Z * Z :=
  let z := day + 719468 in
  let era := z / 146097 in
  let doe := z - era * 146097 in
  let yoe := (doe - doe / 1460 + doe / 36524 - doe / 146096) / 365 in
  let doy := doe - (365 * yoe + yoe / 4 - yoe / 100) in
  let mp := (5 * doy + 2) / 153 in
  let d := doy - (153 * mp + 2) / 5 + 1 in
  let m := if mp <? 10 then mp + 3 else mp - 9 in
  let y := yoe + era * 400 + (if m <=? 2 then 1 else 0) in
  (y, m, d).

Definition isoYear (y : Z) : string :=
  if (0 <=? y) && (y <=? 9999) then pad 4 y
  else (if y <? 0 then "-"%string else "+"%string) +:+ pad 6 (Z.abs y).

(** [None] is the [RangeError] thrown for an invalid time value. *)
Definition toISOString (t : Z) : option string :=
  if maxTime <? Z.abs t then None
  else
    let '(y, m, d) := civil (t / msPerDay) in
    let ms := t mod msPerDay in
    Some (isoYear y +:+ "-" +:+ pad 2 m +:+ "-" +:+ pad 2 d +:+ "T"
          +:+ pad 2 (ms / 3600000) +:+ ":"
          +:+ pad 2 (ms / 60000 mod 60) +:+ ":"
          +:+ pad 2 (ms / 1000 mod 60) +:+ "."
          +:+ pad 3 (ms mod 1000) +:+ "Z")%string.

End Js.

(** ** [src/lib/rateLimit.ts] *)

Module RateLimit.

Record IRateLimitEntry := { timestamps : list Z }.

(** [rateLimitStore]: the one module-level [Map] every limiter uses. *)
Abbreviation Store := (gmap string IRateLimitEntry).

Record IRateLimitResult := {
  success : bool;
  remaining : Z;
  (** [None] stands for [NaN], which the source gets from
      [timestamps[0] + windowMs] on an empty array. *)
  reset : option Z;
}.

(** The callback of [setInterval], run at time [now]. *)
Definition sweep (now : Z) (store : Store) : Store :=
  let fiveMinutesAgo := now - 5 * 60 * 1000 in
  omap (λ entry,
          let ts := filter (λ t, t > fiveMinutesAgo) (timestamps entry) in
          if decide (length ts = 0%nat) then None
          else Some {| timestamps := ts |}) store.

(** The closure returned by [createRateLimiter(limit, windowMs)], applied
    to [identifier] when [Date.now()] reads [now]; the store is threaded
    through. *)
Definition createRateLimiter (limit windowMs : Z)
    (now : Z) (identifier : string) (store : Store)
  : IRateLimitResult * Store :=
  let windowStart := now - windowMs in
  let '(entry, store) :=
    match store !! identifier with
    | Some entry => (entry, store)
    | None =>
        let entry := {| timestamps := [] |} in
        (entry, <[identifier := entry]> store)
    end in
  let ts := filter (λ t, t > windowStart) (timestamps entry) in
  if Z.of_nat (length ts) >=? limit then
    let oldestTimestamp := head ts in
    let resetTime := (λ o, o + windowMs) <$> oldestTimestamp in
    ({| success := false; remaining := 0; reset := resetTime |},
     <[identifier := {| timestamps := ts |}]> store)
  else
    let ts := ts ++ [now] in
    ({| success := true;
        remaining := limit - Z.of_nat (length ts);
        reset := Some (now + windowMs) |},
     <[identifier := {| timestamps := ts |}]> store).

(** [rateLimit.limit]: 50 requests per 10 seconds. *)
Definition rateLimit_limit := createRateLimiter 50 (10 * 1000).

(** [publicRateLimit.limit]: 10 requests per 10 seconds. *)
Definition publicRateLimit_limit := createRateLimiter 10 (10 * 1000).

End RateLimit.

(** ** [middleware.ts] and the header rule of [next.config.js] *)

Module Gate.
Import Js RateLimit.

Definition PUBLIC_ROUTES : list string :=
  ["/api/health"; "/api/webhooks/*"]%string.

Definition isPublicRoute (pathname : string) : bool :=
  existsb
    (λ route,
       if endsWith route "/*" then
         let prefix := slice_off 2 route in
         startsWith pathname prefix
       else String.eqb pathname route)
    PUBLIC_ROUTES.

(** The parts of a [NextRequest] the middleware reads. *)
Record NextRequest := {
  pathname : string;
  ip : option string;
  headers : gmap string string;
}.

(** [process.env]: a variable is a string or [undefined]. *)
Record ProcessEnv := {
  NEXT_PUBLIC_SUPABASE_URL : option string;
  NEXT_PUBLIC_SUPABASE_ANON_KEY : option string;
  ALLOWED_ORIGIN : option string;
}.

Record User := { id : string; email : option string }.

(** What [supabase.auth.getUser()] resolves to: [data.user] and [error]. *)
Record UserResponse := { user : option User; error : option string }.

Inductive Body :=
| PassOn                                  (** [NextResponse.next()] *)
| Json (fields : list (string * string)). (** [NextResponse.json(obj, ...)] *)

Record NextResponse := {
  body : Body;
  status : Z;
  resHeaders : gmap string string;
}.

(** A call of the middleware returns a response or throws. *)
Inductive Outcome :=
| Responded (res : NextResponse)
| Threw (e : string).

Definition NextResponse_next : NextResponse :=
  {| body := PassOn; status := 200;
     resHeaders := headers_of [("x-middleware-next", "1")]%string |}.

Definition NextResponse_json (fields : list (string * string)) (status : Z)
    (hs : list (string * string)) : NextResponse :=
  {| body := Json fields; status := status;
     resHeaders :=
       headers_of (hs ++ [("content-type", "application/json")]%string) |}.

(** The response with the header written. *)
Definition put_header (name value : string) (res : NextResponse)
  : NextResponse :=
  {| body := body res; status := status res;
     resHeaders := headers_set name value (resHeaders res) |}.

(** [res.headers.set(name, value)] for one of the header names of the
    source: the normalized value is written, and [None] is the [TypeError]
    thrown for a value that is no header value. *)
Definition set_header (name value : string) (res : NextResponse)
  : option NextResponse :=
  let value := headerValueNormalize value in
  if isValidHeaderValue value then Some (put_header name value res)
  else None.

(** [a ?? b]. *)
Definition nullish {A} (a : option A) (b : A) : A :=
  match a with Some v => v | None => b end.

(** [!s] for a string or [undefined]. *)
Definition falsy (s : option string) : bool :=
  match s with
  | None => true
  | Some v => String.eqb v EmptyString
  end.

Definition cspTemplate : string := "
    default-src 'self';
    script-src 'self' 'unsafe-inline' 'unsafe-eval';
    style-src 'self' 'unsafe-inline';
    img-src 'self' blob: data: https:;
    font-src 'self';
    object-src 'none';
    base-uri 'self';
    form-action 'self';
    frame-ancestors 'none';
    upgrade-insecure-requests;
  ".

Definition cspHeader : string := trim (collapse_ws [] cspTemplate).

Definition RangeError : string := "RangeError: Invalid time value".

Definition TypeError : string := "TypeError: invalid header value".

(** The statement [res.headers.set(name, value);] followed by [rest]: a
    throw ends the call, with the store as it is then. *)
Definition set_or_throw (name value : string) (res : NextResponse)
    (store : Store) (rest : NextResponse → Outcome * Store)
  : Outcome * Store :=
  match set_header name value res with
  | Some res => rest res
  | None => (Threw TypeError, store)
  end.

Notation "'let!' res ':=' statement 'in' rest" := (statement (λ res, rest))
  (at level 10, res name, statement at level 100, rest at level 200,
   only parsing).

Section Middleware.

(** [supabase.auth.getUser()] on a client created with the project URL, the
    anonymous key and the request's [Authorization] header: the external
    credential verifier. *)
Variable getUser : string → string → string → UserResponse.

(** [middleware(req)].  [now] is what [Date.now()] reads inside the
    limiter, [now'] what it reads when a 429 response is built.  In the
    headers of a 429 response [new Date(reset).toISOString()] is evaluated
    before [Date.now()], and throws on [NaN] and on a number that is not a
    time value.  The middleware has no [try]: what [Headers.set] throws
    ends the call. *)
Definition middleware (env : ProcessEnv) (req : NextRequest)
    (now now' : Z) (store : Store) : Outcome * Store :=
  let res := NextResponse_next in
  let pathname := pathname req in
  let! res := set_or_throw "X-Frame-Options" "DENY" res store in
  let! res := set_or_throw "X-Content-Type-Options" "nosniff" res store in
  let! res := set_or_throw "X-XSS-Protection" "1; mode=block" res store in
  let! res :=
    set_or_throw "Referrer-Policy" "strict-origin-when-cross-origin"
      res store in
  let! res :=
    set_or_throw "Permissions-Policy"
      "camera=(), microphone=(), geolocation=()" res store in
  let! res := set_or_throw "Content-Security-Policy" cspHeader res store in
  let isPublic := isPublicRoute pathname in
  if isPublic then
    let ip :=
      nullish (ip req)
        (nullish (headers_get "x-forwarded-for" (headers req))
           "unknown"%string) in
    let '(r, store) := publicRateLimit_limit now ip store in
    if negb (success r) then
      match reset r with
      | None => (Threw RangeError, store)
      | Some reset =>
          match toISOString reset with
          | None => (Threw RangeError, store)
          | Some iso =>
              (Responded
                 (NextResponse_json
                    [("error", "Too many requests. Please try again later.")]%string
                    429
                    [("X-RateLimit-Limit", "10");
                     ("X-RateLimit-Remaining", toString (remaining r));
                     ("X-RateLimit-Reset", iso);
                     ("Retry-After",
                       toString (ceil_div (reset - now') 1000))]%string),
               store)
          end
      end
    else
      let! res :=
        set_or_throw "X-RateLimit-Remaining" (toString (remaining r))
          res store in
      (Responded res, store)
  else
    let supabaseUrl := NEXT_PUBLIC_SUPABASE_URL env in
    let supabaseAnonKey := NEXT_PUBLIC_SUPABASE_ANON_KEY env in
    if falsy supabaseUrl || falsy supabaseAnonKey then
      (Responded
         (NextResponse_json [("error", "Server configuration error")]%string
            500 []), store)
    else
      let response :=
        getUser (nullish supabaseUrl EmptyString)
          (nullish supabaseAnonKey EmptyString)
          (nullish (headers_get "Authorization" (headers req)) EmptyString) in
      match error response, user response with
      | None, Some user =>
          let '(r, store) := rateLimit_limit now (id user) store in
          if negb (success r) then
            match reset r with
            | None => (Threw RangeError, store)
            | Some reset =>
                match toISOString reset with
                | None => (Threw RangeError, store)
                | Some iso =>
                    (Responded
                       (NextResponse_json
                          [("error", "Too many requests");
                           ("message",
                             "Rate limit exceeded. Please try again later.")]%string
                          429
                          [("X-RateLimit-Limit", "50");
                           ("X-RateLimit-Remaining", toString (remaining r));
                           ("X-RateLimit-Reset", iso);
                           ("Retry-After",
                             toString (ceil_div (reset - now') 1000))]%string),
                     store)
                end
            end
          else
            let! res := set_or_throw "X-User-Id" (id user) res store in
            let! res :=
              set_or_throw "X-User-Email" (nullish (email user) EmptyString)
                res store in
            let! res :=
              set_or_throw "X-RateLimit-Remaining" (toString (remaining r))
                res store in
            (Responded res, store)
      | _, _ =>
          (Responded
             (NextResponse_json
                [("error", "Unauthorized");
                 ("message", "Valid authentication token required")]%string
                401 []), store)
      end.

End Middleware.

(** [headers()] of [next.config.js]: the rule for source [/api/:path*]. *)
Definition nextConfig_headers (env : ProcessEnv) : list (string * string) :=
  [("Access-Control-Allow-Credentials", "true");
   ("Access-Control-Allow-Origin",
     if falsy (ALLOWED_ORIGIN env) then "*"
     else nullish (ALLOWED_ORIGIN env) EmptyString);
   ("Access-Control-Allow-Methods", "GET,OPTIONS,PATCH,DELETE,POST,PUT");
   ("Access-Control-Allow-Headers",
     "X-CSRF-Token, X-Requested-With, Accept, Authorization, Content-Type, X-User-Id")
  ]%string.

(** The headers of the rule, with those of a response laid over them. *)
Definition withConfigHeaders (env : ProcessEnv) (res : NextResponse)
  : NextResponse :=
  {| body := body res; status := status res;
     resHeaders := resHeaders res ∪ headers_of (nextConfig_headers env) |}.

(** What is sent for a request under [/api/:path*], the source both of the
    header rule and of the middleware's [matcher]: the response of the
    middleware, with the headers of the rule. *)
Definition served (getUser : string → string → string → UserResponse)
    (env : ProcessEnv) (req : NextRequest)
    (now now' : Z) (store : Store) : Outcome * Store :=
  let '(o, store) := middleware getUser env req now now' store in
  (match o with
   | Responded res => Responded (withConfigHeaders env res)
   | Threw e => Threw e
   end, store).

End Gate.

Import Js RateLimit Gate.

(** ** Vocabulary of the properties *)

(** A run of checks of one policy for one identifier, one per clock
    reading in [times]. *)
Fixpoint checks (limit windowMs : Z) (identifier : string)
    (times : list Z) (store : Store) : list IRateLimitResult * Store :=
  match times with
  | [] => ([], store)
  | now :: times' =>
      let '(r, store) := createRateLimiter limit windowMs now identifier store in
      let '(rs, store) := checks limit windowMs identifier times' store in
      (r :: rs, store)
  end.

(** The timestamps logged for [identifier] ([[]] when it has no entry). *)
Definition log (identifier : string) (store : Store) : list Z :=
  match store !! identifier with
  | Some entry => timestamps entry
  | None => []
  end.

(** The timestamps of [l] a check at [now] keeps. *)
Definition survivors (windowMs now : Z) (l : list Z) : list Z :=
  filter (λ t, t > now - windowMs) l.

(** The callback [isPublicRoute] gives to [some]: does [route] admit
    [pathname]? *)
Definition routeMatches (pathname route : string) : bool :=
  if endsWith route "/*" then
    let prefix := slice_off 2 route in
    startsWith pathname prefix
  else String.eqb pathname route.

(** [isPublicRoute] for any list of configured patterns. *)
Definition someRoute (routes : list string) (pathname : string) : bool :=
  existsb (routeMatches pathname) routes.

(** Step 1 of the middleware: [res] with the security headers written. *)
Definition securityHeaders (res : NextResponse) : NextResponse :=
  let res := put_header "X-Frame-Options" "DENY" res in
  let res := put_header "X-Content-Type-Options" "nosniff" res in
  let res := put_header "X-XSS-Protection" "1; mode=block" res in
  let res :=
    put_header "Referrer-Policy" "strict-origin-when-cross-origin" res in
  let res :=
    put_header "Permissions-Policy"
      "camera=(), microphone=(), geolocation=()" res in
  put_header "Content-Security-Policy" cspHeader res.

(** [Headers.set] accepts the value. *)
Definition legalHeaderValue (value : string) : bool :=
  isValidHeaderValue (headerValueNormalize value).

(** What the middleware passes on for a subject with [remaining] requests
    left: the response with the subject's headers, unless [Headers.set]
    refuses the id or the email. *)
Definition passedOnFor (u : User) (remaining : Z) : Outcome :=
  if legalHeaderValue (id u)
     && legalHeaderValue (nullish (email u) EmptyString)
  then
    Responded
      (put_header "X-RateLimit-Remaining" (toString remaining)
         (put_header "X-User-Email"
            (headerValueNormalize (nullish (email u) EmptyString))
            (put_header "X-User-Id" (headerValueNormalize (id u))
               (securityHeaders NextResponse_next))))
  else Threw TypeError.

(** A string without HTTP whitespace and without NUL. *)
Fixpoint plainValue (s : string) : bool :=
  match s with
  | EmptyString => true
  | String c s' =>
      negb (is_http_ws c) && negb (is_nul_or_newline c) && plainValue s'
  end.

(** Line 78 of the middleware: the key the public limiter is called with. *)
Definition sourceAddress (req : NextRequest) : string :=
  nullish (ip req)
    (nullish (headers_get "x-forwarded-for" (headers req)) "unknown"%string).

(** What either branch of the middleware answers a refusal with. *)
Definition tooManyRequests (fields : list (string * string))
    (limit : string) (r : IRateLimitResult) (now' : Z) : Outcome :=
  match reset r with
  | None => Threw RangeError
  | Some reset =>
      match toISOString reset with
      | None => Threw RangeError
      | Some iso =>
          Responded
            (NextResponse_json fields 429
               [("X-RateLimit-Limit", limit);
                ("X-RateLimit-Remaining", toString (remaining r));
                ("X-RateLimit-Reset", iso);
                ("Retry-After", toString (ceil_div (reset - now') 1000))]%string)
      end
  end.




(** The reference limiter the specification describes: it never forgets a
    request it admitted, and admits a request at [now] exactly when fewer
    than [L] of the admitted ones lie less than [W] before [now]. *)
Fixpoint ideal (L W : Z) (admitted : list Z) (times : list Z) : list bool :=
  match times with
  | [] => []
  | now :: times' =>
      let ok :=
        bool_decide
          (Z.of_nat (length (filter (λ t, now - W < t) admitted)) < L) in
      ok :: ideal L W (if ok then admitted ++ [now] else admitted) times'
  end.



(** The log of [ident] holds no more timestamps than the limit allows. *)
Definition bounded (L : Z) (ident : string) (s : Store) : Prop :=
  Z.of_nat (length (log ident s)) ≤ L.

(** The stores one policy alone produces: from the empty [Map], by its own
    checks and by the periodic sweep. *)
Inductive one_policy (L W : Z) : Store → Prop :=
| one_policy_empty : one_policy L W ∅
| one_policy_check s now ident :
    one_policy L W s → one_policy L W (createRateLimiter L W now ident s).2
| one_policy_sweep s now :
    one_policy L W s → one_policy L W (sweep now s).

(** The check as the specification words it: [remaining] is the limit less
    the number of timestamps that survived the pruning. *)
Definition check_as_claimed (L W now : Z) (ident : string) (s : Store)
  : Prop :=
  let ts := survivors W now (log ident s) in
  let count := Z.of_nat (length ts) in
  let r := (createRateLimiter L W now ident s).1 in
  let s' := (createRateLimiter L W now ident s).2 in
  if decide (count >= L) then
    success r = false ∧ remaining r = 0
    ∧ reset r = (λ o, o + W) <$> head ts ∧ log ident s' = ts
  else
    success r = true ∧ remaining r = L - count
    ∧ reset r = Some (now + W) ∧ log ident s' = ts ++ [now].

(** After a refusal at [now], the next check of the identifier, at [now2],
    passes if [now2] is not before the reset time of the refusal. *)
Definition passes_at_reset (L W now now2 : Z) (ident : string) (s : Store)
  : Prop :=
  let r := (createRateLimiter L W now ident s).1 in
  let s' := (createRateLimiter L W now ident s).2 in
  success r = false →
  ∀ resetAt, reset r = Some resetAt → resetAt ≤ now2 →
  success (createRateLimiter L W now2 ident s').1 = true.

(** The security headers of step 1 and the headers of the CORS rule. *)
Definition baselineHeaders : list string :=
  ["X-Frame-Options"; "X-Content-Type-Options"; "X-XSS-Protection";
   "Referrer-Policy"; "Permissions-Policy"; "Content-Security-Policy"]%string.

Definition corsHeaders : list string :=
  ["Access-Control-Allow-Credentials"; "Access-Control-Allow-Origin";
   "Access-Control-Allow-Methods"; "Access-Control-Allow-Headers"]%string.

Definition has_header (res : NextResponse) (name : string) : bool :=
  bool_decide (is_Some (headers_get name (resHeaders res))).


(** Both configuration variables are set and not empty. *)
Definition configured (env : ProcessEnv) : bool :=
  negb (falsy (NEXT_PUBLIC_SUPABASE_URL env)
        || falsy (NEXT_PUBLIC_SUPABASE_ANON_KEY env)).

(** The verifier's answer for a request: the subject, unless the verifier
    reports an error or no user. *)
Definition verified (getUser : string → string → string → UserResponse)
    (env : ProcessEnv) (req : NextRequest) : option User :=
  let response :=
    getUser (nullish (NEXT_PUBLIC_SUPABASE_URL env) EmptyString)
      (nullish (NEXT_PUBLIC_SUPABASE_ANON_KEY env) EmptyString)
      (nullish (headers_get "Authorization" (headers req)) EmptyString) in
  match error response with
  | None => user response
  | Some _ => None
  end.


(** The first value of a comma-separated header. *)
Fixpoint first_value (s : string) : string :=
  match s with
  | EmptyString => EmptyString
  | String c s' =>
      if Ascii.eqb c "," then EmptyString else String c (first_value s')
  end.

(** The source address as the specification words it: the direct address,
    else the first value of the forwarded-for header, else [unknown]. *)
Definition claimed_sourceAddress (req : NextRequest) : string :=
  nullish (ip req)
    (nullish (trim ∘ first_value <$> headers_get "x-forwarded-for" (headers req))
       "unknown"%string).

(** What the header policy asks of a response: the CORS headers, with the
    configured origin, and the security headers.  [secured] tells whether
    the security headers are there: all of them, or none. *)
Definition header_policy (env : ProcessEnv) (res : NextResponse)
    (secured : bool) : Prop :=
  forallb (has_header res) corsHeaders = true
  ∧ headers_get "Access-Control-Allow-Origin" (resHeaders res)
    = Some (if falsy (ALLOWED_ORIGIN env) then "*"%string
            else nullish (ALLOWED_ORIGIN env) EmptyString)
  ∧ forallb (has_header res) baselineHeaders = secured
  ∧ existsb (has_header res) baselineHeaders = secured.

(** ** Sample requests *)

Definition sampleUser : User :=
  {| id := "user-42"; email := Some "user42@example.com"%string |}.

(** A verifier that confirms one bearer token and nothing else. *)
Definition sampleVerifier (url key authorization : string) : UserResponse :=
  if String.eqb authorization "Bearer good-token"
  then {| user := Some sampleUser; error := None |}
  else {| user := None; error := Some "invalid JWT"%string |}.

Definition sampleEnv : ProcessEnv :=
  {| NEXT_PUBLIC_SUPABASE_URL := Some "https://project.supabase.co"%string;
     NEXT_PUBLIC_SUPABASE_ANON_KEY := Some "anon-key"%string;
     ALLOWED_ORIGIN := Some "https://app.example.com"%string |}.

Definition healthRequest : NextRequest :=
  {| pathname := "/api/health"; ip := Some "1.2.3.4"%string; headers := ∅ |}.

(** No direct address, two hops in the forwarded-for header. *)
Definition forwardedRequest : NextRequest :=
  {| pathname := "/api/health"; ip := None;
     headers := headers_of [("X-Forwarded-For", "1.2.3.4, 5.6.7.8")]%string |}.

(** No address at all. *)
Definition anonymousRequest : NextRequest :=
  {| pathname := "/api/webhooks/stripe"; ip := None; headers := ∅ |}.

(** A protected path, no [Authorization] header. *)
Definition bareRequest : NextRequest :=
  {| pathname := "/api/protected/example"; ip := Some "1.2.3.4"%string;
     headers := ∅ |}.

Definition signedRequest : NextRequest :=
  {| pathname := "/api/protected/example"; ip := Some "1.2.3.4"%string;
     headers := headers_of [("Authorization", "Bearer good-token")]%string |}.

(** A verifier that ascribes every request to the sample subject, with an
    email that holds a line feed. *)
Definition newlineVerifier (url key authorization : string) : UserResponse :=
  {| user :=
       Some {| id := "user-42";
               email := Some ("eve" +:+ String "010" "bcc@example.com")%string |};
     error := None |}.

(** A store in which the subject has one request left at time 50. *)
Definition fullStore49 : Store :=
  <["user-42"%string := {| timestamps := seqZ 1 49 |}]> ∅.

(** A store in which both the address and the subject have used up their
    quota at time 50. *)
Definition fullStore : Store :=
  <["1.2.3.4"%string := {| timestamps := seqZ 1 10 |}]>
    (<["user-42"%string := {| timestamps := seqZ 1 50 |}]> ∅).

(** ** [src/lib/middleware/getAuthenticatedUser.ts] *)

Module AuthHelper.
Import Js Gate.

Section GetAuthenticatedUser.

(** A row of the [profiles] table. *)
Variable Profile : Type.

(** What the query resolves to: [data] and [error]. *)
Record QueryResult := { data : option Profile; queryError : option string }.

(** [supabaseAdmin.from('profiles').select('*').eq('id', userId).single()]:
    the external database. *)
Variable selectProfile : string → QueryResult.

Definition getAuthenticatedUser (req : NextRequest) : option Profile :=
  let userId := headers_get "X-User-Id" (headers req) in
  if falsy userId then None
  else
    let result := selectProfile (nullish userId EmptyString) in
    match queryError result with
    | Some _ => None
    | None => data result
    end.

End GetAuthenticatedUser.

Arguments data {Profile} _.
Arguments queryError {Profile} _.
Arguments getAuthenticatedUser {Profile} selectProfile req.

End AuthHelper.

(** ** The checkout route ([app/api/checkout/route.ts]) and the header the
       client service sends ([src/lib/stripe/stripeService.ts]) *)

Module Checkout.
Import Js Gate.

(** [s.replace(pattern, replacement)] for a string pattern: the first
    occurrence only. *)
Fixpoint replace (pattern replacement s : string) : string :=
  if startsWith s pattern then
    replacement
    +:+ String.substring (String.length pattern)
          (String.length s - String.length pattern) s
  else
    match s with
    | EmptyString => EmptyString
    | String c s' => String c (replace pattern replacement s')
    end.

(** [a || b] for a string or [undefined] on the left. *)
Definition orElse (a : option string) (b : string) : string :=
  if falsy a then b else nullish a EmptyString.

(** The [Authorization] header [StripeService.createCheckoutSession]
    sends for an access token. *)
Definition bearer (access_token : string) : string :=
  ("Bearer " +:+ access_token)%string.

(** What a [catch] clause receives: an [Error] with its message, or some
    other value. *)
Inductive Thrown :=
| ErrorObject (message : string)
| OtherValue.

(** How an awaited call ends. *)
Inductive Completion (A : Type) :=
| Returned (a : A)
| Throws (e : Thrown).
Arguments Returned {A} a.
Arguments Throws {A} e.

Record ICheckoutSessionRequest := {
  priceId : option string;
  successUrl : option string;
  cancelUrl : option string;
  metadata : option (gmap string string);
}.

(** The request: what [request.json()] resolves to ([None] for the JSON
    value [null]) and the headers. *)
Record PostRequest := {
  json : Completion (option ICheckoutSessionRequest);
  postHeaders : gmap string string;
}.

Record ProfileRow := { stripe_customer_id : option string }.

(** The argument of [stripe.checkout.sessions.create]. *)
Record SessionParams := {
  customer : string;
  price : string;
  quantity : Z;
  mode : string;
  success_url : string;
  cancel_url : string;
  session_metadata : gmap string string;
}.

Record Session := { url : option string; sessionId : string }.

(** The calls the handler makes to Supabase and Stripe. *)
Inductive Call :=
| AuthGetUser (token : string)
| SelectProfile (userId : string)
| CustomersCreate (email : option string) (supabase_user_id : string)
| UpdateProfile (userId customerId : string)
| SessionsCreate (params : SessionParams).

Inductive ReplyBody :=
| ErrorBody (error : string)
| SessionBody (url : option string) (sessionId : string).

(** [NextResponse.json(body, { status })]. *)
Record Reply := { replyStatus : Z; replyBody : ReplyBody }.

(** The [catch] clause of the handler. *)
Definition caught (error : Thrown) : Reply :=
  let errorMessage :=
    match error with
    | ErrorObject message => message
    | OtherValue => "An error occurred during checkout"%string
    end in
  {| replyStatus := 500; replyBody := ErrorBody errorMessage |}.

(** The body of the [try] block: a computation that goes on with a value
    or ends with a reply ([return], or a throw taken by [catch]), and
    keeps the list of the calls made so far. *)
Definition Handler (A : Type) : Type := list Call → (A + Reply) * list Call.

Definition ret {A} (a : A) : Handler A := λ calls, (inl a, calls).

Definition bind {A B} (m : Handler A) (k : A → Handler B) : Handler B :=
  λ calls,
    match m calls with
    | (inl a, calls') => k a calls'
    | (inr reply, calls') => (inr reply, calls')
    end.

Definition respond {A} (reply : Reply) : Handler A :=
  λ calls, (inr reply, calls).

Definition throw {A} (error : Thrown) : Handler A := respond (caught error).

(** [await] of an external call. *)
Definition await {A} (call : Call) (result : Completion A) : Handler A :=
  λ calls,
    match result with
    | Returned a => (inl a, calls ++ [call])
    | Throws error => (inr (caught error), calls ++ [call])
    end.

Notation "'let*' x ':=' m 'in' k" := (bind m (λ x, k))
  (at level 10, x name, m at level 100, k at level 200, only parsing).

Section Route.

(** The external services, as the answers they give. *)
Variable getUser : string → Completion UserResponse.
Variable selectProfile : string → Completion (option ProfileRow).
Variable customersCreate : option string → string → Completion string.
Variable updateProfile : string → string → Completion unit.
Variable sessionsCreate : SessionParams → Completion Session.

(** [process.env.NEXT_PUBLIC_BASE_URL]. *)
Variable NEXT_PUBLIC_BASE_URL : option string.

(** The message of the [TypeError] for destructuring [null]. *)
Variable destructuringNull : string.

Definition POST (request : PostRequest) : Reply * list Call :=
  let handler : Handler Reply :=
    let* body :=
      match json request with
      | Returned (Some body) => ret body
      | Returned None => throw (ErrorObject destructuringNull)
      | Throws error => throw error
      end in
    let metadata := nullish (metadata body) ∅ in
    if falsy (priceId body) then
      respond {| replyStatus := 400;
                 replyBody := ErrorBody "priceId is required" |}
    else
      let authHeader := headers_get "authorization" (postHeaders request) in
      if falsy authHeader then
        respond {| replyStatus := 401;
                   replyBody := ErrorBody "Missing authorization header" |}
      else
        let token := replace "Bearer " "" (nullish authHeader EmptyString) in
        let* response := await (AuthGetUser token) (getUser token) in
        match error response, user response with
        | None, Some user =>
            let* profile :=
              await (SelectProfile (id user)) (selectProfile (id user)) in
            let customerId := profile ≫= stripe_customer_id in
            let* customerId :=
              if falsy customerId then
                let* customer :=
                  await (CustomersCreate (email user) (id user))
                    (customersCreate (email user) (id user)) in
                let customerId := customer in
                let* _ :=
                  await (UpdateProfile (id user) customerId)
                    (updateProfile (id user) customerId) in
                ret customerId
              else ret (nullish customerId EmptyString) in
            let baseUrl :=
              orElse (headers_get "origin" (postHeaders request))
                (orElse NEXT_PUBLIC_BASE_URL "http://localhost:3000") in
            let params :=
              {| customer := customerId;
                 price := nullish (priceId body) EmptyString;
                 quantity := 1;
                 mode := "payment";
                 success_url :=
                   orElse (successUrl body)
                     (baseUrl +:+ "/success?session_id={CHECKOUT_SESSION_ID}");
                 cancel_url := orElse (cancelUrl body) (baseUrl +:+ "/canceled");
                 session_metadata :=
                   metadata ∪ {[ "user_id"%string := id user ]} |} in
            let* session :=
              await (SessionsCreate params) (sessionsCreate params) in
            respond {| replyStatus := 200;
                       replyBody := SessionBody (url session) (sessionId session) |}
        | _, _ =>
            respond {| replyStatus := 401;
                       replyBody := ErrorBody "Invalid authentication token" |}
        end in
  match handler [] with
  | (inl reply, calls) => (reply, calls)
  | (inr reply, calls) => (reply, calls)
  end.

End Route.

End Checkout.

(** ** Vocabulary of the further properties *)

(** The clock readings of a run at which the check passed. *)
Fixpoint admitted (times : list Z) (oks : list bool) : list Z :=
  match times, oks with
  | now :: times', ok :: oks' =>
      (if ok then [now] else []) ++ admitted times' oks'
  | _, _ => []
  end.

(** The timestamps [t] with [x - W < t <= x]: those a window of length [W]
    that closes at [x] holds. *)
Definition within (W x : Z) (l : list Z) : list Z :=
  filter (λ t, x - W < t ≤ x) l.

(** Every stored timestamp, moved by the window of the exported policies,
    is a time value a [Date] holds. *)
Definition valid_store (s : Store) : Prop :=
  ∀ ident, Forall (λ t, Z.abs (t + 10 * 1000) ≤ maxTime) (log ident s).

(** The external call [call] ended by throwing [error]. *)
Definition threw
    (getUser : string → Checkout.Completion UserResponse)
    (selectProfile : string → Checkout.Completion (option Checkout.ProfileRow))
    (customersCreate : option string → string → Checkout.Completion string)
    (updateProfile : string → string → Checkout.Completion unit)
    (sessionsCreate : Checkout.SessionParams → Checkout.Completion Checkout.Session)
    (call : Checkout.Call) (error : Checkout.Thrown) : Prop :=
  match call with
  | Checkout.AuthGetUser token => getUser token = Checkout.Throws error
  | Checkout.SelectProfile userId => selectProfile userId = Checkout.Throws error
  | Checkout.CustomersCreate email userId =>
      customersCreate email userId = Checkout.Throws error
  | Checkout.UpdateProfile userId customerId =>
      updateProfile userId customerId = Checkout.Throws error
  | Checkout.SessionsCreate params => sessionsCreate params = Checkout.Throws error
  end.

(** Sample services for the checkout route: they confirm one token, know
    no Stripe customer for any profile, and create what they are asked. *)
Definition sampleGetUser (token : string)
  : Checkout.Completion UserResponse :=
  Checkout.Returned
    (if String.eqb token "good-token"
     then {| user := Some sampleUser; error := None |}
     else {| user := None; error := Some "invalid JWT"%string |}).

Definition sampleSelectProfile (userId : string)
  : Checkout.Completion (option Checkout.ProfileRow) :=
  Checkout.Returned (Some {| Checkout.stripe_customer_id := None |}).

Definition sampleCustomersCreate (email : option string) (userId : string)
  : Checkout.Completion string :=
  Checkout.Returned ("cus_" +:+ userId)%string.

Definition sampleUpdateProfile (userId customerId : string)
  : Checkout.Completion unit :=
  Checkout.Returned tt.

Definition sampleSessionsCreate (params : Checkout.SessionParams)
  : Checkout.Completion Checkout.Session :=
  Checkout.Returned
    {| Checkout.url := Some "https://checkout.stripe.com/c/cs_1"%string;
       Checkout.sessionId := "cs_1" |}.

(** A checkout body whose metadata names another user. *)
Definition sampleCheckout : Checkout.ICheckoutSessionRequest :=
  {| Checkout.priceId := Some "price_1"%string;
     Checkout.successUrl := None;
     Checkout.cancelUrl := Some EmptyString;
     Checkout.metadata := Some {[ "user_id"%string := "user-7"%string ]} |}.

(** The request the client service sends for it with the confirmed
    token. *)
Definition samplePost : Checkout.PostRequest :=
  {| Checkout.json := Checkout.Returned (Some sampleCheckout);
     Checkout.postHeaders :=
       headers_of [("Authorization", Checkout.bearer "good-token");
                   ("Origin", "https://app.example.com")]%string |}.

(** The session the route asks Stripe for on that request. *)
Definition sampleParams : Checkout.SessionParams :=
  {| Checkout.customer := "cus_user-42";
     Checkout.price := "price_1";
     Checkout.quantity := 1;
     Checkout.mode := "payment";
     Checkout.success_url :=
       "https://app.example.com/success?session_id={CHECKOUT_SESSION_ID}";
     Checkout.cancel_url := "https://app.example.com/canceled";
     Checkout.session_metadata := {[ "user_id"%string := "user-7"%string ]} |}.

(** A Stripe that refuses every session. *)
Definition failingSessionsCreate (params : Checkout.SessionParams)
  : Checkout.Completion Checkout.Session :=
  Checkout.Throws (Checkout.ErrorObject "No such price: 'price_1'").

(** The same request with no header at all. *)
Definition anonymousPost : Checkout.PostRequest :=
  {| Checkout.json := Checkout.json samplePost; Checkout.postHeaders := ∅ |}.

(** The message V8 gives the [TypeError] for destructuring [null]. *)
Definition destructuringNullMessage : string :=
  "Cannot destructure property 'priceId' of 'body' as it is null.".

(** The route with the sample services. *)
Definition samplePOST : Checkout.PostRequest → Checkout.Reply * list Checkout.Call :=
  Checkout.POST sampleGetUser sampleSelectProfile sampleCustomersCreate
    sampleUpdateProfile sampleSessionsCreate None destructuringNullMessage.

(** * Properties *)

(** ** The built-ins on known values *)

Example toISOString_epoch :
  toISOString 0 = Some "1970-01-01T00:00:00.000Z"%string.
Proof. reflexivity. Qed.

Example toISOString_documented :
  toISOString 1705314600000 = Some "2024-01-15T10:30:00.000Z"%string.
Proof. reflexivity. Qed.

Example toISOString_leap_day :
  toISOString 1709164800000 = Some "2024-02-29T00:00:00.000Z"%string
  ∧ toISOString (-1) = Some "1969-12-31T23:59:59.999Z"%string.
Proof. by split. Qed.

Example toISOString_range :
  toISOString maxTime = Some "+275760-09-13T00:00:00.000Z"%string
  ∧ toISOString (- maxTime) = Some "-271821-04-20T00:00:00.000Z"%string
  ∧ toISOString (maxTime + 1) = None.
Proof. by repeat split. Qed.

Example toString_values :
  toString 0 = "0"%string ∧ toString 49 = "49"%string
  ∧ toString (-3) = "-3"%string.
Proof. by repeat split. Qed.

Example retry_after_values :
  ceil_div 8001 1000 = 9 ∧ ceil_div 8000 1000 = 8 ∧ ceil_div (-500) 1000 = 0.
Proof. by repeat split. Qed.

Example cspHeader_value :
  cspHeader
  = "default-src 'self'; script-src 'self' 'unsafe-inline' 'unsafe-eval'; style-src 'self' 'unsafe-inline'; img-src 'self' blob: data: https:; font-src 'self'; object-src 'none'; base-uri 'self'; form-action 'self'; frame-ancestors 'none'; upgrade-insecure-requests;"%string.
Proof. reflexivity. Qed.

(** [Math.ceil]: the least whole number of seconds that covers the wait. *)
Lemma ceil_div_spec x d :
  0 < d → d * (ceil_div x d - 1) < x ≤ d * ceil_div x d.
Proof.
  intros Hd. unfold ceil_div.
  pose proof (Z.div_mod (- x) d ltac:(lia)).
  pose proof (Z.mod_pos_bound (- x) d Hd). lia.
Qed.

(** ** The rate limiter *)

Section Limiter.

Implicit Types (L W now : Z) (ident : string) (l : list Z) (s : Store).

Lemma elem_of_survivors W now l t :
  t ∈ survivors W now l ↔ t ∈ l ∧ now - W < t.
Proof. unfold survivors. rewrite list_elem_of_filter. intuition lia. Qed.

Lemma survivors_length W now l :
  (length (survivors W now l) ≤ length l)%nat.
Proof. apply length_filter. Qed.

Lemma survivors_app W now l l' :
  survivors W now (l ++ l') = survivors W now l ++ survivors W now l'.
Proof. apply filter_app. Qed.

(** Two cut-offs that agree on every entry of [l] keep the same entries. *)
Lemma filter_agree (P Q : Z → Prop) `{∀ t, Decision (P t)}
    `{∀ t, Decision (Q t)} l :
  Forall (λ t, P t ↔ Q t) l → filter P l = filter Q l.
Proof.
  induction 1 as [|t l Ht _ IH]; [done|].
  rewrite !filter_cons, IH.
  destruct (decide (P t)), (decide (Q t)); tauto.
Qed.


Lemma survivors_later W now now' l :
  now ≤ now' → survivors W now' (survivors W now l) = survivors W now' l.
Proof.
  intros Hle. unfold survivors. induction l as [|t l IH]; [done|].
  rewrite !filter_cons.
  destruct (decide (t > now - W)), (decide (t > now' - W));
    rewrite ?filter_cons; try destruct (decide (t > now' - W));
    try lia; by rewrite IH.
Qed.

Lemma log_insert ident ts s :
  log ident (<[ident := {| timestamps := ts |}]> s) = ts.
Proof. unfold log. by rewrite lookup_insert_eq. Qed.

Lemma log_insert_ne ident ident' ts s :
  ident ≠ ident' →
  log ident' (<[ident := {| timestamps := ts |}]> s) = log ident' s.
Proof. intros. unfold log. by rewrite lookup_insert_ne. Qed.

(** The limiter reads nothing of the store but the log of its identifier,
    and writes nothing but that log. *)
Lemma createRateLimiter_log L W now ident s :
  createRateLimiter L W now ident s =
  let ts := survivors W now (log ident s) in
  if Z.of_nat (length ts) >=? L then
    ({| success := false; remaining := 0;
        reset := (λ o, o + W) <$> head ts |},
     <[ident := {| timestamps := ts |}]> s)
  else
    ({| success := true;
        remaining := L - Z.of_nat (length (ts ++ [now]));
        reset := Some (now + W) |},
     <[ident := {| timestamps := ts ++ [now] |}]> s).
Proof.
  unfold createRateLimiter, log, survivors.
  destruct (s !! ident) as [entry|]; simpl; [done|].
  by rewrite !insert_insert_eq.
Qed.

Lemma success_iff L W now ident s :
  success (createRateLimiter L W now ident s).1
  = bool_decide (Z.of_nat (length (survivors W now (log ident s))) < L).
Proof.
  rewrite createRateLimiter_log. cbv zeta.
  destruct (Z.geb_spec (Z.of_nat (length (survivors W now (log ident s)))) L);
    simpl; symmetry; [apply bool_decide_eq_false|apply bool_decide_eq_true]; lia.
Qed.

Lemma log_after L W now ident s :
  log ident (createRateLimiter L W now ident s).2
  = survivors W now (log ident s)
    ++ (if success (createRateLimiter L W now ident s).1 then [now] else []).
Proof.
  rewrite createRateLimiter_log. cbv zeta.
  destruct (_ >=? _); simpl; rewrite log_insert; [by rewrite app_nil_r|done].
Qed.

Lemma log_after_ne L W now ident ident' s :
  ident ≠ ident' →
  log ident' (createRateLimiter L W now ident s).2 = log ident' s.
Proof.
  intros. rewrite createRateLimiter_log. cbv zeta.
  destruct (_ >=? _); simpl; by rewrite log_insert_ne.
Qed.

End Limiter.

(** *** Checks inside one window *)

Section Window.

Variables (L W a : Z) (ident : string).






End Window.

(** *** The pruned log against the complete history *)

Lemma survivors_lt W now l :
  survivors W now l = filter (λ t, now - W < t) l.
Proof. apply filter_agree, Forall_forall. intros; lia. Qed.

(** Under a clock that does not run backwards, pruning the log loses
    nothing a later check would have counted. *)
Lemma checks_ideal L W ident times :
  ∀ (lo : Z) (s : Store) (h : list Z),
    Forall (Z.le lo) times → StronglySorted Z.le times →
    (∀ now, lo ≤ now →
       survivors W now (log ident s) = survivors W now h) →
    success <$> (checks L W ident times s).1 = ideal L W h times.
Proof.
  induction times as [|now1 times IH]; intros lo s h Hlo Hsort Hinv; [done|].
  apply Forall_cons in Hlo as [Hlo1 _].
  apply StronglySorted_inv in Hsort as [Hsort Hle].
  pose proof (success_iff L W now1 ident s) as Hsucc.
  pose proof (log_after L W now1 ident s) as Hlog.
  simpl. destruct (createRateLimiter L W now1 ident s) as [r s'].
  simpl in Hsucc, Hlog.
  specialize (IH now1 s' (if success r then h ++ [now1] else h) Hle Hsort).
  destruct (checks L W ident times s') as [rs s'']. simpl in *.
  rewrite (Hinv now1 Hlo1), survivors_lt in Hsucc. rewrite <- Hsucc.
  f_equal. apply IH. intros now Hnow.
  rewrite Hlog, survivors_app, survivors_later by done.
  rewrite (Hinv now) by lia.
  destruct (success r); [by rewrite survivors_app|by rewrite app_nil_r].
Qed.




(** The scenario of the specification: eleven requests from one address
    within a second under the public policy. *)
Example public_policy_eleven_requests :
  (checks 10 (10 * 1000) "1.2.3.4"
     [0; 100; 200; 300; 400; 500; 600; 700; 800; 900; 1000] ∅).1
  = ((λ k, {| success := true; remaining := 9 - k;
              reset := Some (100 * k + 10000) |}) <$> seqZ 0 10)
    ++ [{| success := false; remaining := 0; reset := Some 10000 |}].
Proof. vm_compute. reflexivity. Qed.

(** The window is half-open: a request exactly [W] after the first one
    finds the first slot free again. *)
Example window_boundary :
  success <$> (checks 2 10 "a" [0; 1; 5; 9; 10; 11; 12] ∅).1
  = [true; true; false; false; true; true; false].
Proof. vm_compute. reflexivity. Qed.

(** *** One check *)

Lemma head_survivors_oldest W now l o t :
  StronglySorted Z.le l →
  head (survivors W now l) = Some o → t ∈ survivors W now l → o ≤ t.
Proof.
  unfold survivors. induction 1 as [|x l _ IH Hx]; [done|].
  rewrite filter_cons. destruct (decide (x > now - W)); [|exact IH].
  simpl. intros [= <-] [->|Ht]%elem_of_cons; [lia|].
  apply list_elem_of_filter in Ht as [_ Ht].
  rewrite Forall_forall in Hx. by apply Hx.
Qed.

(** The first request of a fresh identifier under the public policy: no
    timestamp survives, since none is logged, and [remaining] is 9, not
    10. *)
Lemma first_request_remaining_counterexample :
  survivors 10000 0 (log "1.2.3.4" ∅) = []
  ∧ remaining (createRateLimiter 10 10000 0 "1.2.3.4" ∅).1 = 9
  ∧ ¬ check_as_claimed 10 10000 0 "1.2.3.4" ∅.
Proof.
  split; [done|]. split; [done|].
  vm_compute. intros (_ & Hrem & _). discriminate Hrem.
Qed.

(** C2 (amended).  The check keeps, in their order, exactly the logged
    timestamps [t] with [now - windowMs < t].  If their number [count] is
    at least the limit it refuses with [remaining = 0] and a reset time of
    the first survivor plus [windowMs] (the oldest one when the log is in
    time order), and logs nothing.  Otherwise it appends [now], accepts with
    [remaining = limit - (count + 1)], the new length of the log taken off
    the limit, and a reset time of [now + windowMs]. *)
Theorem check_outcome L W now ident (s : Store) :
  let ts := survivors W now (log ident s) in
  let count := Z.of_nat (length ts) in
  let r := (createRateLimiter L W now ident s).1 in
  let s' := (createRateLimiter L W now ident s).2 in
  (∀ t, t ∈ ts ↔ t ∈ log ident s ∧ now - W < t)
  ∧ ts `sublist_of` log ident s
  ∧ (if decide (count >= L) then
       success r = false ∧ remaining r = 0
       ∧ reset r = (λ o, o + W) <$> head ts ∧ log ident s' = ts
     else
       success r = true ∧ remaining r = L - (count + 1)
       ∧ reset r = Some (now + W) ∧ log ident s' = ts ++ [now])
  ∧ (StronglySorted Z.le (log ident s) →
     ∀ o t, head ts = Some o → t ∈ ts → o ≤ t).
Proof.
  intros ts count r s'. split; [|split; [|split]].
  - intros t. apply elem_of_survivors.
  - apply sublist_filter.
  - unfold r, s'. rewrite createRateLimiter_log. cbv zeta.
    fold ts. fold count.
    destruct (Z.geb_spec count L); destruct (decide (count >= L)); try lia;
      simpl; rewrite log_insert; repeat split; try done.
    rewrite length_app. simpl. unfold count. lia.
  - intros Hsort o t. by apply head_survivors_oldest.
Qed.

(** *** Reset *)

Lemma bounded_check L W now ident ident' (s : Store) :
  0 ≤ L → bounded L ident' s →
  bounded L ident' (createRateLimiter L W now ident s).2.
Proof.
  unfold bounded. intros HL Hb.
  destruct (decide (ident = ident')) as [<-|Hne].
  - rewrite log_after, success_iff.
    pose proof (survivors_length W now (log ident s)).
    case_bool_decide; rewrite length_app; simpl; lia.
  - by rewrite log_after_ne.
Qed.

Lemma log_sweep now ident (s : Store) :
  log ident (sweep now s) = survivors (5 * 60 * 1000) now (log ident s).
Proof.
  unfold log, sweep. rewrite lookup_omap.
  destruct (s !! ident) as [entry|]; simpl; [|done].
  fold (survivors (5 * 60 * 1000) now (timestamps entry)).
  destruct (decide _) as [Hlen|]; simpl; [|done].
  symmetry. by apply nil_length_inv.
Qed.

(** A policy that has the store to itself never logs more than its limit
    for any identifier. *)
Lemma one_policy_bounded L W (s : Store) :
  0 ≤ L → one_policy L W s → ∀ ident, bounded L ident s.
Proof.
  intros HL. induction 1 as [|s now ident0 _ IH|s now _ IH]; intros ident.
  - unfold bounded, log. rewrite lookup_empty. simpl. lia.
  - by apply bounded_check.
  - unfold bounded. rewrite log_sweep.
    pose proof (survivors_length (5 * 60 * 1000) now (log ident s)).
    specialize (IH ident). unfold bounded in IH. lia.
Qed.

(** Eleven requests of a subject under the subject policy, all admitted,
    then the public policy checks the same string: refused at time 11 with
    reset time 10000, and refused again at time 10000, when ten timestamps
    are still counted. *)
Lemma shared_log_blocks_reset_counterexample :
  let subject := checks 50 (10 * 1000) "user-42"
                   [0; 1; 2; 3; 4; 5; 6; 7; 8; 9; 10] ∅ in
  let refused := publicRateLimit_limit 11 "user-42" subject.2 in
  success <$> subject.1 = replicate 11 true
  ∧ success refused.1 = false
  ∧ reset refused.1 = Some 10000
  ∧ success (publicRateLimit_limit 10000 "user-42" refused.2).1 = false
  ∧ ¬ passes_at_reset 10 (10 * 1000) 11 10000 "user-42" subject.2.
Proof.
  repeat (split; [by vm_compute|]).
  intros H. specialize (H eq_refl 10000 eq_refl (Z.le_refl 10000)).
  vm_compute in H. discriminate H.
Qed.

(** C8 (amended).  For every identifier whose log holds no more than [L]
    timestamps, as it does while policy [(L, W)] is the only one to check
    that identifier: after a refusal with reset time [resetAt], the next
    check of the same identifier under that policy at any time from
    [resetAt] on passes. *)
Theorem reset_frees_a_slot L W now now2 ident (s : Store) :
  bounded L ident s → passes_at_reset L W now now2 ident s.
Proof.
  unfold bounded, passes_at_reset.
  intros Hb Hrej resetAt Hreset Hnow2.
  rewrite success_iff, log_after, Hrej, app_nil_r.
  rewrite success_iff in Hrej. apply bool_decide_eq_false in Hrej.
  rewrite createRateLimiter_log in Hreset. cbv zeta in Hreset.
  pose proof (survivors_length W now (log ident s)) as Hlen.
  destruct (survivors W now (log ident s)) as [|o ts] eqn:Hts.
  - destruct (Z.geb_spec (Z.of_nat (length (@nil Z))) L);
      [discriminate Hreset|lia].
  - assert (resetAt = o + W) as ->.
    { destruct (Z.geb_spec (Z.of_nat (length (o :: ts))) L);
        simpl in Hreset; [congruence|lia]. }
    apply bool_decide_eq_true.
    unfold survivors at 1. rewrite filter_cons.
    destruct (decide (o > now2 - W)); [lia|].
    pose proof (survivors_length W now2 ts). unfold survivors in *.
    simpl in Hlen. lia.
Qed.

Lemma reset_frees_a_slot_witness :
  let s := (createRateLimiter 1 10 0 "a" ∅).2 in
  let refused := createRateLimiter 1 10 5 "a" s in
  bounded 1 "a" s
  ∧ success refused.1 = false
  ∧ reset refused.1 = Some 10
  ∧ success (createRateLimiter 1 10 10 "a" refused.2).1 = true.
Proof.
  assert (Hb : bounded 1 "a" (createRateLimiter 1 10 0 "a" ∅).2).
  { unfold bounded. vm_compute. discriminate. }
  split; [exact Hb|]. split; [reflexivity|]. split; [reflexivity|].
  exact (reset_frees_a_slot 1 10 5 10 "a" _ Hb eq_refl 10 eq_refl
           (Z.le_refl 10)).
Defined.

(** *** Identifiers and policies *)

(** What a check answers and logs depends on the store only through the
    log of its identifier. *)
Lemma createRateLimiter_agree L W now ident (s1 s2 : Store) :
  log ident s1 = log ident s2 →
  (createRateLimiter L W now ident s1).1 = (createRateLimiter L W now ident s2).1
  ∧ log ident (createRateLimiter L W now ident s1).2
    = log ident (createRateLimiter L W now ident s2).2.
Proof.
  intros Hlog. rewrite !createRateLimiter_log. cbv zeta. rewrite Hlog.
  destruct (_ >=? _); simpl; by rewrite !log_insert.
Qed.

Lemma checks_agree L W ident times :
  ∀ (s1 s2 : Store), log ident s1 = log ident s2 →
    (checks L W ident times s1).1 = (checks L W ident times s2).1.
Proof.
  induction times as [|now times IH]; intros s1 s2 Hlog; [done|].
  destruct (createRateLimiter_agree L W now ident s1 s2 Hlog) as [Hr Hl].
  simpl.
  destruct (createRateLimiter L W now ident s1) as [r1 s1'].
  destruct (createRateLimiter L W now ident s2) as [r2 s2'].
  simpl in Hr, Hl. subst r2. specialize (IH s1' s2' Hl).
  destruct (checks L W ident times s1') as [rs1 ?].
  destruct (checks L W ident times s2') as [rs2 ?].
  simpl in *. by subst.
Qed.

Lemma lookup_after_ne L W now ident ident' (s : Store) :
  ident ≠ ident' →
  (createRateLimiter L W now ident s).2 !! ident' = s !! ident'.
Proof.
  intros Hne. rewrite createRateLimiter_log. cbv zeta.
  destruct (_ >=? _); simpl; by rewrite lookup_insert_ne.
Qed.

(** C9.  For distinct identifiers [id1] and [id2], a check for [id1], under
    any policy and so under each of the two exported ones, leaves the store
    entry of [id2] as it was, and with it the results of every run of
    checks for [id2] that follows. *)
Theorem distinct_identifiers_independent L W now id1 id2 (s : Store) :
  id1 ≠ id2 →
  let s' := (createRateLimiter L W now id1 s).2 in
  s' !! id2 = s !! id2
  ∧ (rateLimit_limit now id1 s).2 !! id2 = s !! id2
  ∧ (publicRateLimit_limit now id1 s).2 !! id2 = s !! id2
  ∧ ∀ L' W' times,
      (checks L' W' id2 times s').1 = (checks L' W' id2 times s).1.
Proof.
  intros Hne s'. repeat split; try by apply lookup_after_ne.
  intros L' W' times. apply checks_agree. by apply log_after_ne.
Qed.

Lemma distinct_identifiers_independent_witness :
  let s := (createRateLimiter 10 10000 0 "1.2.3.4" ∅).2 in
  let s' := (createRateLimiter 10 10000 5 "5.6.7.8" s).2 in
  s' !! "1.2.3.4" = s !! "1.2.3.4"
  ∧ (rateLimit_limit 5 "5.6.7.8" s).2 !! "1.2.3.4" = s !! "1.2.3.4"
  ∧ (publicRateLimit_limit 5 "5.6.7.8" s).2 !! "1.2.3.4" = s !! "1.2.3.4"
  ∧ ∀ L' W' times,
      (checks L' W' "1.2.3.4" times s').1 = (checks L' W' "1.2.3.4" times s).1.
Proof.
  apply (distinct_identifiers_independent 10 10000 5 "5.6.7.8" "1.2.3.4").
  discriminate.
Defined.

(** A timestamp one policy logs is counted by any policy with the same
    window that checks the same string while the timestamp is live. *)
Lemma logged_for_all_policies L1 L2 W ident now now' (s : Store) :
  now ≤ now' < now + W →
  success (createRateLimiter L1 W now ident s).1 = true →
  let s1 := (createRateLimiter L1 W now ident s).2 in
  survivors W now' (log ident s1) = survivors W now' (log ident s) ++ [now]
  ∧ success (createRateLimiter L2 W now' ident s1).1
    = bool_decide
        (Z.of_nat (length (survivors W now' (log ident s))) + 1 < L2).
Proof.
  intros Hnow Hok s1.
  assert (Hlog : survivors W now' (log ident s1)
                 = survivors W now' (log ident s) ++ [now]).
  { unfold s1. rewrite log_after, Hok, survivors_app, survivors_later by lia.
    f_equal. unfold survivors. rewrite filter_cons.
    destruct (decide (now > now' - W)); [done|lia]. }
  split; [exact Hlog|].
  rewrite success_iff, Hlog, length_app. simpl.
  apply bool_decide_ext. lia.
Qed.

(** C10.  The two exported limiters work on the one store, keyed by the
    bare identifier string: a timestamp [rateLimit.limit] logs for a string
    is in the log [publicRateLimit.limit] prunes and counts for that
    string, and the other way round, so each admitted request of one policy
    takes one from what the other still admits in that window. *)
Theorem policies_share_one_log ident now now' (s : Store) :
  now ≤ now' < now + 10 * 1000 →
  let count := Z.of_nat (length (survivors (10 * 1000) now' (log ident s))) in
  (success (rateLimit_limit now ident s).1 = true →
     now ∈ log ident (rateLimit_limit now ident s).2
     ∧ success (publicRateLimit_limit now' ident (rateLimit_limit now ident s).2).1
       = bool_decide (count + 1 < 10))
  ∧ (success (publicRateLimit_limit now ident s).1 = true →
     now ∈ log ident (publicRateLimit_limit now ident s).2
     ∧ success (rateLimit_limit now' ident (publicRateLimit_limit now ident s).2).1
       = bool_decide (count + 1 < 50)).
Proof.
  intros Hnow count. unfold rateLimit_limit, publicRateLimit_limit.
  split; intros Hok.
  - split.
    + rewrite log_after, Hok, elem_of_app, list_elem_of_singleton. by right.
    + by apply logged_for_all_policies.
  - split.
    + rewrite log_after, Hok, elem_of_app, list_elem_of_singleton. by right.
    + by apply logged_for_all_policies.
Qed.

Lemma policies_share_one_log_witness :
  let s := (checks 50 (10 * 1000) "user-42" [0; 1; 2; 3; 4; 5; 6; 7; 8] ∅).2 in
  (success (rateLimit_limit 9 "user-42" s).1 = true
   ∧ 9 ∈ log "user-42" (rateLimit_limit 9 "user-42" s).2
   ∧ success (publicRateLimit_limit 10 "user-42"
                (rateLimit_limit 9 "user-42" s).2).1 = false)
  ∧ (success (publicRateLimit_limit 9 "user-42" s).1 = true
     ∧ 9 ∈ log "user-42" (publicRateLimit_limit 9 "user-42" s).2
     ∧ success (rateLimit_limit 10 "user-42"
                  (publicRateLimit_limit 9 "user-42" s).2).1 = true).
Proof.
  pose proof (policies_share_one_log "user-42" 9 10
                (checks 50 (10 * 1000) "user-42" [0; 1; 2; 3; 4; 5; 6; 7; 8] ∅).2
                ltac:(lia)) as [H1 H2].
  split.
  - split; [reflexivity|]. destruct (H1 eq_refl) as [Hin Hs].
    split; [exact Hin|exact Hs].
  - split; [reflexivity|]. destruct (H2 eq_refl) as [Hin Hs].
    split; [exact Hin|exact Hs].
Defined.

(** ** The route classifier *)

Section Strings.

Implicit Types s p q : string.

Lemma append_nil q : EmptyString +:+ q = q.
Proof. reflexivity. Qed.

Lemma append_cons c p q : String c p +:+ q = String c (p +:+ q).
Proof. reflexivity. Qed.

Lemma append_length p q :
  String.length (p +:+ q) = (String.length p + String.length q)%nat.
Proof.
  induction p as [|c p IH]; [done|].
  rewrite append_cons. simpl. by rewrite IH.
Qed.

Lemma substring_append p q :
  String.substring 0 (String.length p) (p +:+ q) = p.
Proof.
  induction p as [|c p IH]; [rewrite append_nil; by destruct q|].
  rewrite append_cons. simpl. by rewrite IH.
Qed.

Lemma startsWith_spec s p :
  startsWith s p = true ↔ ∃ rest, s = p +:+ rest.
Proof.
  unfold startsWith. revert s. induction p as [|c p IH]; intros s.
  - split; [by exists s|intros _; by destruct s].
  - destruct s as [|d s]; simpl.
    { split; [done|]. intros [rest Hrest]. by rewrite append_cons in Hrest. }
    destruct (ascii_dec c d) as [->|Hne].
    + rewrite IH. split; intros [rest Hrest]; exists rest;
        rewrite append_cons in *; congruence.
    + split; [done|]. intros [rest Hrest].
      rewrite append_cons in Hrest. congruence.
Qed.

Lemma endsWith_nil q :
  endsWith EmptyString q = String.eqb EmptyString q || false.
Proof. reflexivity. Qed.

Lemma endsWith_cons c s q :
  endsWith (String c s) q = String.eqb (String c s) q || endsWith s q.
Proof. reflexivity. Qed.

Lemma endsWith_spec s q :
  endsWith s q = true ↔ ∃ p, s = p +:+ q.
Proof.
  induction s as [|c s IH]; [rewrite endsWith_nil|rewrite endsWith_cons].
  - rewrite orb_false_r, String.eqb_eq. split.
    + intros <-. by exists EmptyString.
    + intros [[|d p] Hp]; [by rewrite append_nil in Hp|].
      by rewrite append_cons in Hp.
  - rewrite orb_true_iff, String.eqb_eq, IH. split.
    + intros [<-|[p ->]]; [by exists EmptyString|by exists (String c p)].
    + intros [[|d p] Hp]; [left; by rewrite append_nil in Hp|].
      rewrite append_cons in Hp. right. exists p. congruence.
Qed.

Lemma slice_off_append p q :
  slice_off (String.length q) (p +:+ q) = p.
Proof.
  unfold slice_off. rewrite append_length.
  replace (String.length p + String.length q - String.length q)%nat
    with (String.length p) by lia.
  apply substring_append.
Qed.

Lemma append_inj_r p p' q : p +:+ q = p' +:+ q → p = p'.
Proof.
  intros Heq. rewrite <- (slice_off_append p q), Heq.
  apply slice_off_append.
Qed.

End Strings.

Lemma routeMatches_spec pathname route :
  routeMatches pathname route = true ↔
  (∃ prefix, route = prefix +:+ "/*" ∧ ∃ rest, pathname = prefix +:+ rest)
  ∨ ((∀ prefix, route ≠ prefix +:+ "/*") ∧ pathname = route).
Proof.
  unfold routeMatches.
  destruct (endsWith route "/*") eqn:Hends.
  - apply endsWith_spec in Hends as [prefix ->].
    assert (slice_off 2 (prefix +:+ "/*") = prefix) as ->
      by apply (slice_off_append prefix "/*").
    rewrite startsWith_spec. split.
    + intros Hrest. left. by exists prefix.
    + intros [(prefix' & Heq & Hrest)|[Hno _]].
      * by rewrite (append_inj_r _ _ _ Heq).
      * by destruct (Hno prefix).
  - rewrite String.eqb_eq. split.
    + intros ->. right. split; [|done]. intros prefix ->.
      assert (endsWith (prefix +:+ "/*") "/*" = true) as Ht
        by (apply endsWith_spec; by exists prefix).
      congruence.
    + intros [(prefix & -> & _)|[_ ->]]; [|done].
      assert (endsWith (prefix +:+ "/*") "/*" = true) as Ht
        by (apply endsWith_spec; by exists prefix).
      congruence.
Qed.

(** C4.  A path is public exactly when one of the configured patterns
    admits it: a pattern that ends in the marker [/*] admits the paths that
    start with the pattern less the marker, any other pattern admits only
    the path equal to it; a path no pattern admits is protected.  With the
    pattern [/api/webhooks/*], [/api/webhooks/stripe] is public and
    [/api/other] is protected, also under the patterns of the source. *)
Theorem route_classification routes pathname :
  (someRoute routes pathname = true ↔
   ∃ route, route ∈ routes ∧
     ((∃ prefix, route = prefix +:+ "/*"
                 ∧ ∃ rest, pathname = prefix +:+ rest)
      ∨ ((∀ prefix, route ≠ prefix +:+ "/*") ∧ pathname = route)))
  ∧ (someRoute routes pathname = false ↔
     ∀ route, route ∈ routes → routeMatches pathname route = false)
  ∧ isPublicRoute pathname = someRoute PUBLIC_ROUTES pathname
  ∧ someRoute ["/api/webhooks/*"%string] "/api/webhooks/stripe" = true
  ∧ someRoute ["/api/webhooks/*"%string] "/api/other" = false
  ∧ isPublicRoute "/api/webhooks/stripe" = true
  ∧ isPublicRoute "/api/other" = false.
Proof.
  split; [|split; [|by repeat split]].
  - unfold someRoute. rewrite existsb_exists. split.
    + intros (route & Hin & Hm). exists route.
      split; [by apply list_elem_of_In|by apply routeMatches_spec].
    + intros (route & Hin & Hm). exists route.
      split; [by apply list_elem_of_In|by apply routeMatches_spec].
  - unfold someRoute. induction routes as [|r routes IH]; simpl.
    + split; [|done]. intros _ route Hin. by apply elem_of_nil in Hin.
    + rewrite orb_false_iff, IH. split.
      * intros [Hr Hrest] route [->|Hin]%elem_of_cons; [done|by apply Hrest].
      * intros Hall. split; [apply Hall; by left|].
        intros route Hin. apply Hall. by right.
Qed.

(** The marker is the two characters [/*]: the prefix that is left does not
    end in a slash, so it also admits these two paths. *)
Example wildcard_marker_includes_the_slash :
  isPublicRoute "/api/webhooks" = true
  ∧ isPublicRoute "/api/webhooks-internal" = true
  ∧ isPublicRoute "/api/health/live" = false.
Proof. by repeat split. Qed.

(** ** Header values *)

Lemma stripStart_plain s : plainValue s = true → stripStart s = s.
Proof.
  destruct s as [|c s]; [done|]. simpl.
  intros [[Hc _]%andb_true_iff _]%andb_true_iff.
  apply negb_true_iff in Hc. by rewrite Hc.
Qed.

Lemma stripEnd_plain s : plainValue s = true → stripEnd s = s.
Proof.
  induction s as [|c s IH]; [done|]. simpl.
  intros [[Hc _]%andb_true_iff Hs]%andb_true_iff.
  apply negb_true_iff in Hc. by rewrite Hc, IH.
Qed.

Lemma isValidHeaderValue_plain s :
  plainValue s = true → isValidHeaderValue s = true.
Proof.
  induction s as [|c s IH]; [done|]. simpl.
  intros [[_ Hc]%andb_true_iff Hs]%andb_true_iff.
  by rewrite Hc, IH.
Qed.

(** [Headers.set] writes a plain value as it is. *)
Lemma set_header_plain name value res :
  plainValue value = true →
  set_header name value res = Some (put_header name value res).
Proof.
  intros Hplain. unfold set_header, headerValueNormalize.
  by rewrite stripStart_plain, stripEnd_plain, isValidHeaderValue_plain.
Qed.

Lemma string_of_uint_plain d :
  plainValue (NilEmpty.string_of_uint d) = true.
Proof. induction d; done. Qed.

(** The decimal form of a number is plain. *)
Lemma toString_plain n : plainValue (toString n) = true.
Proof.
  unfold toString, NilZero.string_of_int, NilZero.string_of_uint.
  destruct (Z.to_int n) as [d|d]; destruct d;
    first [done | apply (string_of_uint_plain (_ _))
          | simpl; apply (string_of_uint_plain _) ].
Qed.

(** Step 1 of the middleware never throws: its values are header values. *)
Lemma security_headers_set (store : Store)
    (rest : NextResponse → Outcome * Store) :
  set_or_throw "X-Frame-Options" "DENY" NextResponse_next store (λ res,
  set_or_throw "X-Content-Type-Options" "nosniff" res store (λ res,
  set_or_throw "X-XSS-Protection" "1; mode=block" res store (λ res,
  set_or_throw "Referrer-Policy" "strict-origin-when-cross-origin"
    res store (λ res,
  set_or_throw "Permissions-Policy"
    "camera=(), microphone=(), geolocation=()" res store (λ res,
  set_or_throw "Content-Security-Policy" cspHeader res store rest)))))
  = rest (securityHeaders NextResponse_next).
Proof. unfold set_or_throw. vm_compute. reflexivity. Qed.

(** The three sets of the pass-on path of a protected request. *)
Lemma subject_headers_set u left res (store : Store) :
  set_or_throw "X-User-Id" (id u) res store (λ res,
  set_or_throw "X-User-Email" (nullish (email u) EmptyString) res store (λ res,
  set_or_throw "X-RateLimit-Remaining" (toString left) res store (λ res,
  (Responded res, store))))
  = (if legalHeaderValue (id u)
        && legalHeaderValue (nullish (email u) EmptyString)
     then
       Responded
         (put_header "X-RateLimit-Remaining" (toString left)
            (put_header "X-User-Email"
               (headerValueNormalize (nullish (email u) EmptyString))
               (put_header "X-User-Id" (headerValueNormalize (id u)) res)))
     else Threw TypeError, store).
Proof.
  unfold set_or_throw, legalHeaderValue, set_header at 1.
  destruct (isValidHeaderValue (headerValueNormalize (id u))); [|done].
  unfold set_header at 1.
  destruct (isValidHeaderValue (headerValueNormalize (nullish _ _))); [|done].
  by rewrite set_header_plain by apply toString_plain.
Qed.

(** ** The middleware *)

Section GateCases.

Variable getUser : string → string → string → UserResponse.

Implicit Types (env : ProcessEnv) (req : NextRequest) (s : Store).

(** The four ways through the middleware. *)

Lemma middleware_public env req now now' s :
  isPublicRoute (pathname req) = true →
  middleware getUser env req now now' s
  = let checked := publicRateLimit_limit now (sourceAddress req) s in
    (if success checked.1 then
       Responded
         (put_header "X-RateLimit-Remaining" (toString (remaining checked.1))
            (securityHeaders NextResponse_next))
     else
       tooManyRequests
         [("error", "Too many requests. Please try again later.")]%string
         "10" checked.1 now',
     checked.2).
Proof.
  intros Hpub. unfold middleware. cbv zeta.
  rewrite security_headers_set, Hpub.
  fold (sourceAddress req). unfold tooManyRequests.
  destruct (publicRateLimit_limit now (sourceAddress req) s) as [r s'].
  simpl. destruct (success r); simpl.
  { unfold set_or_throw. by rewrite set_header_plain by apply toString_plain. }
  destruct (reset r) as [resetAt|]; [|done].
  by destruct (toISOString resetAt).
Qed.

Lemma middleware_unconfigured env req now now' s :
  isPublicRoute (pathname req) = false → configured env = false →
  middleware getUser env req now now' s
  = (Responded
       (NextResponse_json [("error", "Server configuration error")]%string
          500 []), s).
Proof.
  intros Hpub Hconf. unfold middleware. cbv zeta.
  rewrite security_headers_set, Hpub.
  unfold configured in Hconf. apply negb_false_iff in Hconf. by rewrite Hconf.
Qed.

Lemma middleware_unverified env req now now' s :
  isPublicRoute (pathname req) = false → configured env = true →
  verified getUser env req = None →
  middleware getUser env req now now' s
  = (Responded
       (NextResponse_json
          [("error", "Unauthorized");
           ("message", "Valid authentication token required")]%string
          401 []), s).
Proof.
  intros Hpub Hconf Hver. unfold middleware. cbv zeta.
  rewrite security_headers_set, Hpub.
  unfold configured in Hconf. apply negb_true_iff in Hconf. rewrite Hconf.
  unfold verified in Hver. cbv zeta in Hver.
  destruct (error (getUser _ _ _)); [done|]. by rewrite Hver.
Qed.

Lemma middleware_verified env req now now' s u :
  isPublicRoute (pathname req) = false → configured env = true →
  verified getUser env req = Some u →
  middleware getUser env req now now' s
  = let checked := rateLimit_limit now (id u) s in
    (if success checked.1 then passedOnFor u (remaining checked.1)
     else
       tooManyRequests
         [("error", "Too many requests");
          ("message", "Rate limit exceeded. Please try again later.")]%string
         "50" checked.1 now',
     checked.2).
Proof.
  intros Hpub Hconf Hver. unfold middleware. cbv zeta.
  rewrite security_headers_set, Hpub.
  unfold configured in Hconf. apply negb_true_iff in Hconf. rewrite Hconf.
  unfold verified in Hver. cbv zeta in Hver.
  destruct (error (getUser _ _ _)); [done|]. rewrite Hver.
  unfold tooManyRequests, passedOnFor.
  destruct (rateLimit_limit now (id u) s) as [r s']. simpl.
  destruct (success r); simpl.
  { rewrite subject_headers_set. by destruct (_ && _). }
  destruct (reset r) as [resetAt|]; [|done].
  by destruct (toISOString resetAt).
Qed.

(** C6.  A protected request whose credential the verifier does not
    confirm, the request without an [Authorization] header included (the
    verifier is then asked about the empty string), ends in a 401 response
    with the JSON body [{error: "Unauthorized", message}], and the store of
    the rate limiter is the one the request found. *)
Theorem unverified_is_401 env req now now' s :
  isPublicRoute (pathname req) = false →
  configured env = true →
  verified getUser env req = None →
  ∃ res,
    middleware getUser env req now now' s = (Responded res, s)
    ∧ status res = 401
    ∧ body res
      = Json [("error", "Unauthorized");
              ("message", "Valid authentication token required")]%string.
Proof.
  intros Hpub Hconf Hver. eexists. split; [by apply middleware_unverified|].
  by split.
Qed.

(** *** Refusals of the rate limiter *)

Lemma toISOString_valid t :
  Z.abs t ≤ maxTime → is_Some (toISOString t).
Proof.
  intros Ht. unfold toISOString.
  destruct (Z.ltb_spec maxTime (Z.abs t)); [lia|].
  destruct (civil (t / msPerDay)) as [[y m] d]. by eexists.
Qed.

(** A refusal under a positive limit names a reset time: the first
    survivor plus the window. *)
Lemma refusal_reset L W now ident s :
  0 < L → success (createRateLimiter L W now ident s).1 = false →
  remaining (createRateLimiter L W now ident s).1 = 0
  ∧ ∃ o, o ∈ log ident s
         ∧ reset (createRateLimiter L W now ident s).1 = Some (o + W).
Proof.
  intros HL. rewrite createRateLimiter_log. cbv zeta.
  destruct (Z.geb_spec (Z.of_nat (length (survivors W now (log ident s)))) L)
    as [Hge|]; simpl; [intros _|done].
  split; [done|].
  destruct (survivors W now (log ident s)) as [|o ts] eqn:Hts;
    simpl in *; [lia|].
  exists o. split; [|done].
  assert (o ∈ survivors W now (log ident s)) as Ho
    by (rewrite Hts; by left).
  by apply elem_of_survivors in Ho as [Ho _].
Qed.




End GateCases.



Lemma fullStore49_valid ident :
  Forall (λ t, Z.abs (t + 10 * 1000) ≤ maxTime) (log ident fullStore49).
Proof.
  unfold log, fullStore49. rewrite lookup_insert.
  case_decide; [|rewrite lookup_empty; constructor].
  apply Forall_forall. intros t Ht%elem_of_seqZ. unfold maxTime. lia.
Defined.


Lemma unverified_is_401_witness :
  ∃ res,
    middleware sampleVerifier sampleEnv bareRequest 50 51 fullStore
    = (Responded res, fullStore)
    ∧ status res = 401
    ∧ body res
      = Json [("error", "Unauthorized");
              ("message", "Valid authentication token required")]%string.
Proof.
  apply (unverified_is_401 sampleVerifier sampleEnv bareRequest 50 51 fullStore);
    reflexivity.
Defined.

(** *** The key of the public limiter *)

(** A request with two hops in its forwarded-for header: the limiter is
    keyed by the whole header value, not by its first value. *)
Lemma forwarded_for_counterexample :
  let s' := (middleware sampleVerifier sampleEnv forwardedRequest 50 51 ∅).2 in
  claimed_sourceAddress forwardedRequest = "1.2.3.4"%string
  ∧ sourceAddress forwardedRequest = "1.2.3.4, 5.6.7.8"%string
  ∧ log "1.2.3.4, 5.6.7.8" s' = [50]
  ∧ s' !! "1.2.3.4"%string = None
  ∧ sourceAddress forwardedRequest ≠ claimed_sourceAddress forwardedRequest.
Proof. repeat (split; [by vm_compute|]). by vm_compute. Qed.

(** C7 (amended).  On a public path the limiter is keyed by the direct
    address of the request; failing that, by the value of its forwarded-for
    header, whole and as received; failing both, by the literal [unknown].
    The first of the three that is present wins.  The check is made under
    that key whatever the request: afterwards the store has an entry for
    it, and every other entry is as before. *)
Theorem public_limiter_key getUser env req now now' (s : Store) :
  isPublicRoute (pathname req) = true →
  let ident :=
    match ip req with
    | Some address => address
    | None =>
        match headers_get "x-forwarded-for" (headers req) with
        | Some value => value
        | None => "unknown"%string
        end
    end in
  let s' := (middleware getUser env req now now' s).2 in
  sourceAddress req = ident
  ∧ s' = (publicRateLimit_limit now ident s).2
  ∧ is_Some (s' !! ident)
  ∧ ∀ other, other ≠ ident → s' !! other = s !! other.
Proof.
  intros Hpub ident s'.
  assert (Hid : sourceAddress req = ident) by done.
  assert (Hs' : s' = (publicRateLimit_limit now ident s).2).
  { unfold s'. rewrite middleware_public by done. by rewrite Hid. }
  split; [done|]. split; [done|]. rewrite Hs'.
  unfold publicRateLimit_limit. split.
  - rewrite createRateLimiter_log. cbv zeta.
    destruct (_ >=? _); simpl; rewrite lookup_insert_eq; by eexists.
  - intros other Hne. by apply lookup_after_ne.
Qed.

Lemma public_limiter_key_witness :
  let s' := (middleware sampleVerifier sampleEnv anonymousRequest 50 51 fullStore).2 in
  sourceAddress anonymousRequest = "unknown"%string
  ∧ s' = (publicRateLimit_limit 50 "unknown" fullStore).2
  ∧ is_Some (s' !! "unknown"%string)
  ∧ ∀ other, other ≠ "unknown"%string → s' !! other = fullStore !! other.
Proof.
  apply (public_limiter_key sampleVerifier sampleEnv anonymousRequest 50 51
           fullStore).
  reflexivity.
Defined.

(** *** Headers *)

Lemma policy_forwarded_public env remaining :
  header_policy env
    (withConfigHeaders env
       (put_header "X-RateLimit-Remaining" remaining
          (securityHeaders NextResponse_next))) true.
Proof.
  unfold header_policy, withConfigHeaders, nextConfig_headers.
  generalize (if falsy (ALLOWED_ORIGIN env) then "*"%string
              else nullish (ALLOWED_ORIGIN env) EmptyString).
  intros value. by vm_compute.
Qed.

Lemma policy_forwarded_subject env remaining ident mail :
  header_policy env
    (withConfigHeaders env
       (put_header "X-RateLimit-Remaining" remaining
          (put_header "X-User-Email" mail
             (put_header "X-User-Id" ident
                (securityHeaders NextResponse_next))))) true.
Proof.
  unfold header_policy, withConfigHeaders, nextConfig_headers.
  generalize (if falsy (ALLOWED_ORIGIN env) then "*"%string
              else nullish (ALLOWED_ORIGIN env) EmptyString).
  intros value. by vm_compute.
Qed.

Lemma policy_rejected env fields code :
  header_policy env (withConfigHeaders env (NextResponse_json fields code []))
    false.
Proof.
  unfold header_policy, withConfigHeaders, nextConfig_headers.
  generalize (if falsy (ALLOWED_ORIGIN env) then "*"%string
              else nullish (ALLOWED_ORIGIN env) EmptyString).
  intros value. by vm_compute.
Qed.

Lemma policy_refused env fields limit r now' res :
  tooManyRequests fields limit r now' = Responded res →
  body res = Json fields ∧ status res = 429
  ∧ header_policy env (withConfigHeaders env res) false.
Proof.
  unfold tooManyRequests.
  destruct (reset r) as [resetAt|]; [|done].
  destruct (toISOString resetAt) as [iso|]; [|done].
  intros [= <-]. split; [done|]. split; [done|].
  generalize (toString (ceil_div (resetAt - now') 1000)).
  generalize (toString (remaining r)). intros v1 v2.
  unfold header_policy, withConfigHeaders, nextConfig_headers.
  generalize (if falsy (ALLOWED_ORIGIN env) then "*"%string
              else nullish (ALLOWED_ORIGIN env) EmptyString).
  intros value. by vm_compute.
Qed.

Section Headers.

Variable getUser : string → string → string → UserResponse.

(** C3.  What the code does for the header policy: every response carries
    the CORS headers of the configuration, with the configured origin; the
    security headers are on the response the middleware passes on, all of
    them, and on no response it ends the request with (401, 429, 500). *)
Theorem headers_by_outcome env req now now' (s : Store) res :
  (served getUser env req now now' s).1 = Responded res →
  match body res with
  | PassOn => status res = 200 ∧ header_policy env res true
  | Json _ => status res ∈ [401; 429; 500] ∧ header_policy env res false
  end.
Proof.
  unfold served.
  destruct (middleware getUser env req now now' s) as [o s'] eqn:Hm.
  simpl. destruct o as [res0|e]; [intros [= <-]|done].
  destruct (isPublicRoute (pathname req)) eqn:Hpub.
  - rewrite middleware_public in Hm by done. cbv zeta in Hm.
    injection Hm as Hres _.
    destruct (success _).
    + injection Hres as <-. split; [done|apply policy_forwarded_public].
    + destruct (policy_refused env _ _ _ _ _ Hres) as (Hb & Hst & Hp).
      simpl. rewrite Hb, Hst. split; [|done]. by repeat constructor.
  - destruct (configured env) eqn:Hconf.
    2:{ rewrite middleware_unconfigured in Hm by done.
        injection Hm as <- _. split; [by repeat constructor|].
        apply policy_rejected. }
    destruct (verified getUser env req) as [u|] eqn:Hver.
    2:{ rewrite middleware_unverified in Hm by done.
        injection Hm as <- _. split; [by repeat constructor|].
        apply policy_rejected. }
    rewrite (middleware_verified getUser env req now now' s u) in Hm by done.
    cbv zeta in Hm. injection Hm as Hres _.
    destruct (success _).
    + unfold passedOnFor in Hres. destruct (_ && _); [|done].
      injection Hres as <-. split; [done|apply policy_forwarded_subject].
    + destruct (policy_refused env _ _ _ _ _ Hres) as (Hb & Hst & Hp).
      simpl. rewrite Hb, Hst. split; [|done]. by repeat constructor.
Qed.

End Headers.

(** The failing input: a protected request without credentials is answered
    401, with the CORS headers and without any of the security headers. *)
Lemma headers_by_outcome_witness :
  ∃ res,
    (served sampleVerifier sampleEnv bareRequest 50 51 fullStore).1
    = Responded res
    ∧ status res = 401
    ∧ headers_get "Access-Control-Allow-Origin" (resHeaders res)
      = Some "https://app.example.com"%string
    ∧ headers_get "X-Frame-Options" (resHeaders res) = None
    ∧ headers_get "Content-Security-Policy" (resHeaders res) = None
    ∧ header_policy sampleEnv res false.
Proof.
  eexists. do 5 (split; [reflexivity|]).
  exact (proj2 (headers_by_outcome sampleVerifier sampleEnv bareRequest 50 51
                  fullStore _ eq_refl)).
Defined.

(** The same path with the credential confirmed and quota left: passed on
    with every security header. *)
Example forwarded_with_headers :
  ∃ res,
    (served sampleVerifier sampleEnv signedRequest 50 51 ∅).1 = Responded res
    ∧ body res = PassOn
    ∧ headers_get "X-Frame-Options" (resHeaders res) = Some "DENY"%string
    ∧ headers_get "Content-Security-Policy" (resHeaders res) = Some cspHeader
    ∧ headers_get "X-User-Id" (resHeaders res) = Some "user-42"%string
    ∧ headers_get "X-RateLimit-Remaining" (resHeaders res) = Some "49"%string.
Proof. eexists. split; [reflexivity|]. by vm_compute. Qed.

(** * Further properties *)

(** ** The limiter: what a policy admits *)

Section Admission.

Implicit Types (L W now : Z) (ident : string) (l h : list Z) (s : Store).

Lemma admitted_step now times ok oks h :
  h ++ admitted (now :: times) (ok :: oks)
  = (if ok then h ++ [now] else h) ++ admitted times oks.
Proof. simpl. destruct ok; simpl; [by rewrite <- app_assoc|done]. Qed.

Lemma within_app W x l l' :
  within W x (l ++ l') = within W x l ++ within W x l'.
Proof. apply filter_app. Qed.

(** A timestamp a closing window holds is one a check inside that window
    still counts. *)
Lemma within_counted W x now h :
  Forall (λ t, t ≤ now) h → x - W < now ≤ x →
  Z.of_nat (length (within W x h))
  ≤ Z.of_nat (length (filter (λ t, now - W < t) h)).
Proof.
  intros Hh Hnow. unfold within.
  induction Hh as [|t h Ht _ IH]; [done|].
  rewrite !filter_cons.
  destruct (decide (x - W < t ≤ x)), (decide (now - W < t));
    simpl; lia.
Qed.

(** The reference limiter never has more than [L] admitted requests in a
    window, wherever the window is put. *)
Lemma ideal_window L W times :
  0 ≤ L →
  ∀ (lo : Z) h,
    Forall (Z.le lo) times → StronglySorted Z.le times →
    Forall (λ t, t ≤ lo) h →
    (∀ x, Z.of_nat (length (within W x h)) ≤ L) →
    ∀ x, Z.of_nat (length (within W x (h ++ admitted times (ideal L W h times))))
         ≤ L.
Proof.
  intros HL. induction times as [|now times IH];
    intros lo h Hlo Hsort Hh Hinv x.
  { simpl. by rewrite app_nil_r. }
  apply Forall_cons in Hlo as [Hnow _].
  apply StronglySorted_inv in Hsort as [Hsort Hle].
  cbn [ideal]. rewrite admitted_step.
  assert (Hh' : Forall (λ t, t ≤ now) h).
  { eapply Forall_impl; [exact Hh|]. simpl. intros; lia. }
  apply (IH now); try done.
  - case_bool_decide; [|done].
    apply Forall_app. split; [done|]. by apply Forall_singleton.
  - intros y. case_bool_decide as Hroom; [|apply Hinv].
    rewrite within_app, length_app. unfold within at 2.
    rewrite filter_cons. destruct (decide (y - W < now ≤ y)) as [Hin|]; simpl.
    + pose proof (within_counted W y now h Hh' Hin). lia.
    + specialize (Hinv y). lia.
Qed.

(** X1.  Under a clock that does not run backwards, a policy that starts
    with nothing logged for an identifier never admits more than [L]
    requests of it in any span of [W] milliseconds, wherever the span lies:
    the timestamps [t] of admitted requests with [x - W < t <= x] are at
    most [L], for every [x]. *)
Theorem window_never_exceeds_limit L W ident times (s : Store) x :
  0 ≤ L → StronglySorted Z.le times → log ident s = [] →
  let results := (checks L W ident times s).1 in
  Z.of_nat (length (within W x (admitted times (success <$> results)))) ≤ L.
Proof.
  intros HL Hsort Hfresh results. unfold results.
  destruct times as [|t0 times]; [simpl; lia|].
  assert (Hlo : Forall (Z.le t0) (t0 :: times)).
  { apply StronglySorted_inv in Hsort as [_ Hle]. constructor; [lia|done]. }
  rewrite (checks_ideal L W ident (t0 :: times) t0 s [] Hlo Hsort).
  - apply (ideal_window L W (t0 :: times) HL t0 [] Hlo Hsort).
    + constructor.
    + intros y. simpl. lia.
  - intros now _. by rewrite Hfresh.
Qed.

Lemma window_never_exceeds_limit_witness :
  let times := [0; 1; 5; 9; 10; 11; 12; 19; 20; 21] in
  let results := (checks 2 10 "a" times ∅).1 in
  admitted times (success <$> results) = [0; 1; 10; 11; 20; 21]
  ∧ Z.of_nat (length (within 10 15 (admitted times (success <$> results)))) ≤ 2.
Proof.
  split; [reflexivity|].
  apply (window_never_exceeds_limit 2 10 "a"
           [0; 1; 5; 9; 10; 11; 12; 19; 20; 21] ∅ 15); [lia| |reflexivity].
  repeat (apply SSorted_cons;
          [|repeat (apply List.Forall_cons; [lia|]); apply List.Forall_nil]).
  apply SSorted_nil.
Defined.

End Admission.

(** ** The limiter: one check, seen from the caller *)

Section Caller.

Implicit Types (L W now : Z) (ident : string) (l : list Z) (s : Store).

Lemma survivors_nested W1 W2 now1 now2 l :
  now1 - W1 ≤ now2 - W2 →
  survivors W2 now2 (survivors W1 now1 l) = survivors W2 now2 l.
Proof.
  intros Hle. unfold survivors. apply list_filter_filter_l. intros t. lia.
Qed.

Lemma survivors_sorted W now l :
  StronglySorted Z.le l → StronglySorted Z.le (survivors W now l).
Proof.
  unfold survivors. induction 1 as [|t l _ IH Ht]; [constructor|].
  rewrite filter_cons. destruct (decide (t > now - W)); [|done].
  constructor; [done|].
  apply Forall_forall. intros u [_ Hu]%list_elem_of_filter.
  rewrite Forall_forall in Ht. by apply Ht.
Qed.

Lemma sorted_snoc l x :
  StronglySorted Z.le l → Forall (λ t, t ≤ x) l →
  StronglySorted Z.le (l ++ [x]).
Proof.
  induction 1 as [|t l _ IH Ht]; intros Hx; simpl.
  - repeat constructor.
  - apply Forall_cons in Hx as [Htx Hx]. constructor; [by apply IH|].
    apply Forall_app. split; [done|]. by apply Forall_singleton.
Qed.

(** Two stores with the same survivors for an identifier answer a check of
    it alike, and log the same. *)
Lemma createRateLimiter_survivors L W now ident (s1 s2 : Store) :
  survivors W now (log ident s1) = survivors W now (log ident s2) →
  (createRateLimiter L W now ident s1).1 = (createRateLimiter L W now ident s2).1
  ∧ log ident (createRateLimiter L W now ident s1).2
    = log ident (createRateLimiter L W now ident s2).2.
Proof.
  intros Heq. rewrite !createRateLimiter_log. cbv zeta. rewrite Heq.
  destruct (_ >=? _); simpl; by rewrite !log_insert.
Qed.

(** X2.  When nothing logged is later than the clock, a refusal names a
    reset time after the check and at most one window away, so the seconds
    a client is told to wait, [ceil((reset - now') / 1000)] for a reading
    [now'] from the check up to the reset, are at least 1 and at most the
    window in seconds. *)
Theorem refusal_waits_within_window L W now ident s resetAt :
  Forall (λ t, t ≤ now) (log ident s) →
  success (createRateLimiter L W now ident s).1 = false →
  reset (createRateLimiter L W now ident s).1 = Some resetAt →
  now < resetAt ≤ now + W
  ∧ ∀ now', now ≤ now' < resetAt →
      1 ≤ ceil_div (resetAt - now') 1000 ≤ ceil_div W 1000.
Proof.
  intros Hpast Hrej Hreset.
  rewrite createRateLimiter_log in Hrej, Hreset. cbv zeta in Hrej, Hreset.
  destruct (_ >=? _); [|discriminate Hrej]. simpl in Hreset.
  destruct (survivors W now (log ident s)) as [|o ts] eqn:Hts;
    [discriminate Hreset|].
  injection Hreset as <-.
  assert (o ∈ survivors W now (log ident s)) as Ho by (rewrite Hts; by left).
  apply elem_of_survivors in Ho as [Ho Hlive].
  rewrite Forall_forall in Hpast. specialize (Hpast o Ho).
  split; [lia|]. intros now' Hnow'.
  pose proof (ceil_div_spec (o + W - now') 1000 ltac:(lia)).
  pose proof (ceil_div_spec W 1000 ltac:(lia)). lia.
Qed.

Lemma refusal_waits_within_window_witness :
  let s := (checks 10 (10 * 1000) "1.2.3.4" (seqZ 1 10) ∅).2 in
  (11 < 10001 ≤ 11 + 10 * 1000)
  ∧ ∀ now', 11 ≤ now' < 10001 →
      1 ≤ ceil_div (10001 - now') 1000 ≤ ceil_div (10 * 1000) 1000.
Proof.
  apply (refusal_waits_within_window 10 (10 * 1000) 11 "1.2.3.4"
           (checks 10 (10 * 1000) "1.2.3.4" (seqZ 1 10) ∅).2 10001);
    [|reflexivity|reflexivity].
  apply Forall_forall. intros t Ht.
  vm_compute in Ht. repeat (apply elem_of_cons in Ht as [->|Ht]; [lia|]).
  by apply elem_of_nil in Ht.
Defined.

(** The range of [remaining]. *)
Lemma remaining_range L W now ident s :
  let r := (createRateLimiter L W now ident s).1 in
  if success r then 0 ≤ remaining r < L else remaining r = 0.
Proof.
  rewrite createRateLimiter_log. cbv zeta.
  destruct (Z.geb_spec (Z.of_nat (length (survivors W now (log ident s)))) L);
    simpl; [done|].
  rewrite length_app. simpl. lia.
Qed.

(** X3.  [remaining] is never negative and, on a pass, below the limit;
    it is what the caller can still have: a second check of the identifier
    at the same clock reading passes exactly when [remaining] is
    positive. *)
Theorem remaining_is_what_is_left L W now ident s :
  0 < W →
  let r := (createRateLimiter L W now ident s).1 in
  let s' := (createRateLimiter L W now ident s).2 in
  (if success r then 0 ≤ remaining r < L else remaining r = 0)
  ∧ success (createRateLimiter L W now ident s').1
    = bool_decide (0 < remaining r).
Proof.
  intros HW r s'.
  assert (Hnext : success (createRateLimiter L W now ident s').1
                  = bool_decide
                      (Z.of_nat (length (survivors W now (log ident s)))
                       + (if success r then 1 else 0) < L)).
  { unfold s', r. rewrite (success_iff L W now ident (_.2)), log_after.
    rewrite survivors_app, survivors_nested by lia.
    apply bool_decide_ext. rewrite length_app.
    destruct (success _); simpl; [|lia].
    unfold survivors at 2. rewrite filter_cons.
    destruct (decide (now > now - W)); simpl; lia. }
  rewrite Hnext. unfold r. rewrite createRateLimiter_log. cbv zeta.
  destruct (Z.geb_spec (Z.of_nat (length (survivors W now (log ident s)))) L);
    simpl.
  - split; [done|]. apply bool_decide_eq_false. lia.
  - rewrite length_app. simpl. split; [lia|]. apply bool_decide_ext. lia.
Qed.

Lemma remaining_is_what_is_left_witness :
  let r := (createRateLimiter 2 10 7 "a" (createRateLimiter 2 10 5 "a" ∅).2).1 in
  let s' := (createRateLimiter 2 10 7 "a" (createRateLimiter 2 10 5 "a" ∅).2).2 in
  (if success r then 0 ≤ remaining r < 2 else remaining r = 0)
  ∧ success (createRateLimiter 2 10 7 "a" s').1 = bool_decide (0 < remaining r).
Proof.
  apply (remaining_is_what_is_left 2 10 7 "a"
           (createRateLimiter 2 10 5 "a" ∅).2).
  lia.
Defined.

(** X4.  Under a clock that does not run backwards the log of an
    identifier stays in time order, and after a check at [now] it holds
    only timestamps of the window that closes at [now]:
    [now - W < t <= now]. *)
Theorem log_stays_in_order L W now0 now ident s :
  0 < W → now0 ≤ now →
  StronglySorted Z.le (log ident s) →
  Forall (λ t, t ≤ now0) (log ident s) →
  let s' := (createRateLimiter L W now ident s).2 in
  StronglySorted Z.le (log ident s')
  ∧ Forall (λ t, now - W < t ≤ now) (log ident s').
Proof.
  intros HW Hclock Hsort Hpast s'. unfold s'. rewrite log_after.
  assert (Hlive : Forall (λ t, now - W < t ≤ now)
                    (survivors W now (log ident s))).
  { apply Forall_forall. intros t [Ht Hw]%elem_of_survivors.
    rewrite Forall_forall in Hpast. specialize (Hpast t Ht). lia. }
  destruct (success _).
  - split.
    + apply sorted_snoc; [by apply survivors_sorted|].
      eapply Forall_impl; [exact Hlive|]. simpl. intros; lia.
    + apply Forall_app. split; [done|]. apply Forall_singleton. lia.
  - rewrite app_nil_r. split; [by apply survivors_sorted|done].
Qed.

Lemma log_stays_in_order_witness :
  let s := (checks 3 10 "a" [0; 4; 8] ∅).2 in
  let s' := (createRateLimiter 3 10 12 "a" s).2 in
  log "a" s' = [4; 8; 12]
  ∧ StronglySorted Z.le (log "a" s')
  ∧ Forall (λ t, 12 - 10 < t ≤ 12) (log "a" s').
Proof.
  split; [reflexivity|].
  apply (log_stays_in_order 3 10 8 12 "a" (checks 3 10 "a" [0; 4; 8] ∅).2);
    [lia|lia| |].
  - repeat (apply SSorted_cons;
            [|repeat (apply List.Forall_cons; [lia|]); apply List.Forall_nil]).
    apply SSorted_nil.
  - repeat (apply List.Forall_cons; [lia|]). apply List.Forall_nil.
Defined.

(** X5.  A refused request leaves no trace: every later check of the
    identifier under the same window, whatever its limit, answers and logs
    as if the refused request had not been made, and no other identifier's
    entry changes. *)
Theorem refusals_leave_no_trace L L' W now now' ident s :
  success (createRateLimiter L W now ident s).1 = false →
  now ≤ now' →
  let s' := (createRateLimiter L W now ident s).2 in
  (createRateLimiter L' W now' ident s').1
  = (createRateLimiter L' W now' ident s).1
  ∧ log ident (createRateLimiter L' W now' ident s').2
    = log ident (createRateLimiter L' W now' ident s).2
  ∧ ∀ other, other ≠ ident → s' !! other = s !! other.
Proof.
  intros Hrej Hclock s'.
  assert (Heq : survivors W now' (log ident s')
                = survivors W now' (log ident s)).
  { unfold s'. rewrite log_after, Hrej, app_nil_r.
    apply survivors_nested. lia. }
  destruct (createRateLimiter_survivors L' W now' ident s' s Heq) as [Hr Hl].
  split; [done|]. split; [done|].
  intros other Hne. by apply lookup_after_ne.
Qed.

Lemma refusals_leave_no_trace_witness :
  let s := (checks 2 10 "a" [0; 1] ∅).2 in
  let s' := (createRateLimiter 2 10 5 "a" s).2 in
  (createRateLimiter 2 10 10 "a" s').1 = (createRateLimiter 2 10 10 "a" s).1
  ∧ log "a" (createRateLimiter 2 10 10 "a" s').2
    = log "a" (createRateLimiter 2 10 10 "a" s).2
  ∧ ∀ other, other ≠ "a"%string → s' !! other = s !! other.
Proof.
  apply (refusals_leave_no_trace 2 2 10 5 10 "a" (checks 2 10 "a" [0; 1] ∅).2);
    [reflexivity|lia].
Defined.

End Caller.

(** ** The periodic sweep *)

Section Sweep.

Implicit Types (L W now : Z) (ident : string) (s : Store).

(** X6.  The sweep is invisible to the limiters: when its five-minute
    horizon lies no later than the window of a check ([now - 300000 <=
    now' - W], as for both exported policies under a clock that does not
    run backwards), the check answers the same and logs the same whether
    or not the sweep ran before it. *)
Theorem sweep_is_invisible L W now now' ident s :
  now - 5 * 60 * 1000 ≤ now' - W →
  (createRateLimiter L W now' ident (sweep now s)).1
  = (createRateLimiter L W now' ident s).1
  ∧ log ident (createRateLimiter L W now' ident (sweep now s)).2
    = log ident (createRateLimiter L W now' ident s).2.
Proof.
  intros Hhorizon. apply createRateLimiter_survivors.
  rewrite log_sweep. by apply survivors_nested.
Qed.

Lemma sweep_is_invisible_witness :
  let s := (checks 10 (10 * 1000) "1.2.3.4" [0; 1; 2] ∅).2 in
  (publicRateLimit_limit 3000 "1.2.3.4" (sweep 3000 s)).1
  = (publicRateLimit_limit 3000 "1.2.3.4" s).1
  ∧ log "1.2.3.4" (publicRateLimit_limit 3000 "1.2.3.4" (sweep 3000 s)).2
    = log "1.2.3.4" (publicRateLimit_limit 3000 "1.2.3.4" s).2.
Proof.
  apply (sweep_is_invisible 10 (10 * 1000) 3000 3000 "1.2.3.4"
           (checks 10 (10 * 1000) "1.2.3.4" [0; 1; 2] ∅).2).
  lia.
Defined.

(** The entry the sweep leaves for an identifier. *)
Lemma sweep_entry now ident s :
  (sweep now s !! ident = None
   ↔ survivors (5 * 60 * 1000) now (log ident s) = [])
  ∧ (∀ entry, sweep now s !! ident = Some entry →
       timestamps entry ≠ []
       ∧ Forall (λ t, now - 5 * 60 * 1000 < t) (timestamps entry)).
Proof.
  unfold sweep, log. rewrite lookup_omap.
  destruct (s !! ident) as [e|]; simpl; [|by split].
  fold (survivors (5 * 60 * 1000) now (timestamps e)).
  destruct (decide _) as [Hlen|Hlen]; simpl.
  - apply nil_length_inv in Hlen. by split.
  - split.
    + split; [done|]. intros Hnil. by rewrite Hnil in Hlen.
    + intros entry [= <-]. simpl. split.
      * intros Hnil. by rewrite Hnil in Hlen.
      * apply Forall_forall. intros t [_ Ht]%elem_of_survivors. done.
Qed.

(** X7.  The sweep keeps, for every identifier and in their order, exactly
    the timestamps of the last five minutes; an identifier none of whose
    timestamps is that recent loses its entry, so that no entry with an
    empty log is left in the store. *)
Theorem sweep_keeps_the_recent now ident s :
  log ident (sweep now s) = survivors (5 * 60 * 1000) now (log ident s)
  ∧ (sweep now s !! ident = None
     ↔ survivors (5 * 60 * 1000) now (log ident s) = [])
  ∧ (∀ entry, sweep now s !! ident = Some entry →
       timestamps entry ≠ []
       ∧ Forall (λ t, now - 5 * 60 * 1000 < t) (timestamps entry)).
Proof. split; [apply log_sweep|apply sweep_entry]. Qed.

(** X8.  Sweeps compose: a sweep at [now] followed by one at a later (or
    the same) [now'] leaves the store the later sweep alone would leave;
    so sweeping twice at one time changes nothing more. *)
Theorem sweep_twice now now' s :
  now ≤ now' → sweep now' (sweep now s) = sweep now' s.
Proof.
  intros Hclock. apply map_eq. intros ident.
  unfold sweep at 1 3. rewrite !lookup_omap.
  pose proof (log_sweep now ident s) as Hlog.
  destruct (sweep_entry now ident s) as (Hnone & _).
  unfold log in Hlog, Hnone.
  destruct (s !! ident) as [e|] eqn:He; simpl.
  - fold (survivors (5 * 60 * 1000) now' (timestamps e)).
    destruct (sweep now s !! ident) as [e'|] eqn:He'; simpl.
    + fold (survivors (5 * 60 * 1000) now' (timestamps e')).
      rewrite Hlog, survivors_nested by lia. done.
    + apply proj1 in Hnone. specialize (Hnone eq_refl).
      rewrite <- (survivors_nested (5 * 60 * 1000) (5 * 60 * 1000) now now')
        by lia.
      rewrite Hnone. done.
  - destruct (sweep now s !! ident) as [e'|] eqn:He'; simpl; [|done].
    simpl in Hlog. destruct (sweep_entry now ident s) as (_ & Hne).
    destruct (Hne e' He') as [Hne' _].
    by rewrite Hlog in Hne'.
Qed.

Lemma sweep_twice_witness :
  let s := (publicRateLimit_limit 400000 "c"
              (publicRateLimit_limit 200000 "b"
                 (publicRateLimit_limit 0 "a" ∅).2).2).2 in
  dom (sweep 450000 s) = {["b"%string; "c"%string]}
  ∧ sweep 600000 (sweep 450000 s) = sweep 600000 s
  ∧ sweep 800000 (sweep 450000 s) = ∅.
Proof.
  split; [by vm_compute|]. split.
  - apply (sweep_twice 450000 600000). lia.
  - rewrite (sweep_twice 450000 800000) by lia. by vm_compute.
Defined.

End Sweep.

(** ** The middleware: what decides the answer *)

Section Decides.

Implicit Types (env : ProcessEnv) (req : NextRequest) (s : Store).

(** X9.  On a public path credentials and configuration play no part: the
    answer and the store after it are the same for every verifier and
    every environment, and for any two requests to that path from the same
    source address, whatever else they carry. *)
Theorem public_needs_no_credentials getUser getUser' env env' req req' now now' s :
  isPublicRoute (pathname req) = true →
  pathname req' = pathname req →
  sourceAddress req' = sourceAddress req →
  middleware getUser env req now now' s
  = middleware getUser' env' req' now now' s.
Proof.
  intros Hpub Hpath Haddr.
  rewrite (middleware_public getUser env req) by done.
  rewrite (middleware_public getUser' env' req') by (by rewrite Hpath).
  by rewrite Haddr.
Qed.

Lemma public_needs_no_credentials_witness :
  middleware sampleVerifier sampleEnv healthRequest 50 51 fullStore
  = middleware (λ _ _ _, {| user := None; error := None |})
      {| NEXT_PUBLIC_SUPABASE_URL := None;
         NEXT_PUBLIC_SUPABASE_ANON_KEY := None;
         ALLOWED_ORIGIN := None |}
      {| pathname := "/api/health"; ip := Some "1.2.3.4"%string;
         headers := headers_of [("Authorization", "Bearer good-token")]%string |}
      50 51 fullStore.
Proof.
  apply (public_needs_no_credentials sampleVerifier _ sampleEnv _ healthRequest);
    reflexivity.
Defined.

(** X10.  Without its configuration the gate turns every protected request
    away with 500: when either Supabase variable is unset or empty the
    answer is [{error: "Server configuration error"}], whatever
    credentials the request carries and whatever the verifier would say,
    and the store of the limiter is left as it was. *)
Theorem unconfigured_is_500 getUser env req now now' s :
  isPublicRoute (pathname req) = false →
  (NEXT_PUBLIC_SUPABASE_URL env = None
   ∨ NEXT_PUBLIC_SUPABASE_URL env = Some EmptyString
   ∨ NEXT_PUBLIC_SUPABASE_ANON_KEY env = None
   ∨ NEXT_PUBLIC_SUPABASE_ANON_KEY env = Some EmptyString) →
  ∃ res,
    middleware getUser env req now now' s = (Responded res, s)
    ∧ status res = 500
    ∧ body res = Json [("error", "Server configuration error")]%string.
Proof.
  intros Hpub Hmissing.
  assert (Hconf : configured env = false).
  { unfold configured. apply negb_false_iff, orb_true_iff.
    destruct Hmissing as [H|[H|[H|H]]]; rewrite H;
      [by left|by left|by right|by right]. }
  rewrite middleware_unconfigured by done. by eexists.
Qed.

Lemma unconfigured_is_500_witness :
  ∃ res,
    middleware sampleVerifier
      {| NEXT_PUBLIC_SUPABASE_URL := Some "https://project.supabase.co"%string;
         NEXT_PUBLIC_SUPABASE_ANON_KEY := Some EmptyString;
         ALLOWED_ORIGIN := None |}
      signedRequest 50 51 fullStore
    = (Responded res, fullStore)
    ∧ status res = 500
    ∧ body res = Json [("error", "Server configuration error")]%string.
Proof.
  apply (unconfigured_is_500 sampleVerifier _ signedRequest 50 51 fullStore);
    [reflexivity|].
  right. right. right. reflexivity.
Defined.

(** X11.  On a protected path the limiter is keyed by the verified subject
    and by nothing else: the store afterwards is the one a check of the
    subject's id under the subject policy leaves, and two requests the
    verifier ascribes to the same subject get the same answer, from
    whatever address and path they come. *)
Theorem protected_is_keyed_by_subject getUser env req req' now now' s u :
  isPublicRoute (pathname req) = false →
  isPublicRoute (pathname req') = false →
  configured env = true →
  verified getUser env req = Some u →
  verified getUser env req' = Some u →
  (middleware getUser env req now now' s).2 = (rateLimit_limit now (id u) s).2
  ∧ middleware getUser env req now now' s
    = middleware getUser env req' now now' s.
Proof.
  intros Hpub Hpub' Hconf Hver Hver'.
  rewrite (middleware_verified getUser env req now now' s u) by done.
  rewrite (middleware_verified getUser env req' now now' s u) by done.
  by split.
Qed.

Lemma protected_is_keyed_by_subject_witness :
  let req' := {| pathname := "/api/checkout"; ip := Some "5.6.7.8"%string;
                 headers := headers_of [("authorization", "Bearer good-token")]%string |} in
  (middleware sampleVerifier sampleEnv signedRequest 50 51 ∅).2
  = (rateLimit_limit 50 "user-42" ∅).2
  ∧ middleware sampleVerifier sampleEnv signedRequest 50 51 ∅
    = middleware sampleVerifier sampleEnv req' 50 51 ∅.
Proof.
  apply (protected_is_keyed_by_subject sampleVerifier sampleEnv signedRequest
           _ 50 51 ∅ sampleUser); reflexivity.
Defined.

End Decides.

(** ** The middleware: what it passes on, and that it answers *)

Section PassedOn.

Variable getUser : string → string → string → UserResponse.

Implicit Types (env : ProcessEnv) (req : NextRequest) (s : Store).

Lemma forwarded_public_headers v :
  let res := put_header "X-RateLimit-Remaining" v
               (securityHeaders NextResponse_next) in
  headers_get "X-RateLimit-Remaining" (resHeaders res) = Some v
  ∧ headers_get "X-User-Id" (resHeaders res) = None
  ∧ headers_get "X-User-Email" (resHeaders res) = None.
Proof. by vm_compute. Qed.

Lemma forwarded_subject_headers v ident mail :
  let res := put_header "X-RateLimit-Remaining" v
               (put_header "X-User-Email" mail
                  (put_header "X-User-Id" ident
                     (securityHeaders NextResponse_next))) in
  headers_get "X-RateLimit-Remaining" (resHeaders res) = Some v
  ∧ headers_get "X-User-Id" (resHeaders res) = Some ident
  ∧ headers_get "X-User-Email" (resHeaders res) = Some mail.
Proof. by vm_compute. Qed.

(** X12.  A response the middleware passes on has status 200 and tells
    the quota left in [X-RateLimit-Remaining]: a number from 0 up to 9 on a
    public path and up to 49 on a protected one.  On a protected path it
    also names the verified subject in [X-User-Id] and the subject's email,
    or the empty string, in [X-User-Email], both as [Headers.set] writes
    them: accepted as header values, and without leading and trailing
    whitespace.  On a public path it has neither header. *)
Theorem passed_on_reports_quota env req now now' s res :
  (middleware getUser env req now now' s).1 = Responded res →
  body res = PassOn →
  status res = 200
  ∧ ∃ left,
      headers_get "X-RateLimit-Remaining" (resHeaders res)
      = Some (toString left)
      ∧ if isPublicRoute (pathname req) then
          0 ≤ left < 10
          ∧ headers_get "X-User-Id" (resHeaders res) = None
          ∧ headers_get "X-User-Email" (resHeaders res) = None
        else
          0 ≤ left < 50
          ∧ ∃ u, verified getUser env req = Some u
                 ∧ legalHeaderValue (id u) = true
                 ∧ legalHeaderValue (nullish (email u) EmptyString) = true
                 ∧ headers_get "X-User-Id" (resHeaders res)
                   = Some (headerValueNormalize (id u))
                 ∧ headers_get "X-User-Email" (resHeaders res)
                   = Some (headerValueNormalize
                             (nullish (email u) EmptyString)).
Proof.
  intros Hm Hbody.
  destruct (isPublicRoute (pathname req)) eqn:Hpub.
  - rewrite middleware_public in Hm by done. cbv zeta in Hm. simpl in Hm.
    pose proof (remaining_range 10 (10 * 1000) now (sourceAddress req) s)
      as Hrem.
    cbv zeta in Hrem. fold publicRateLimit_limit in Hrem.
    destruct (success _).
    + injection Hm as <-. split; [done|].
      exists (remaining (publicRateLimit_limit now (sourceAddress req) s).1).
      destruct (forwarded_public_headers
                  (toString (remaining
                     (publicRateLimit_limit now (sourceAddress req) s).1)))
        as (H1 & H2 & H3).
      split; [exact H1|]. split; [exact Hrem|]. split; [exact H2|exact H3].
    + unfold tooManyRequests in Hm.
      destruct (reset _) as [resetAt|]; [|done].
      destruct (toISOString resetAt); [|done].
      injection Hm as <-. discriminate Hbody.
  - destruct (configured env) eqn:Hconf.
    2:{ rewrite middleware_unconfigured in Hm by done.
        injection Hm as <-. discriminate Hbody. }
    destruct (verified getUser env req) as [u|] eqn:Hver.
    2:{ rewrite middleware_unverified in Hm by done.
        injection Hm as <-. discriminate Hbody. }
    rewrite (middleware_verified getUser env req now now' s u) in Hm by done.
    cbv zeta in Hm. simpl in Hm.
    pose proof (remaining_range 50 (10 * 1000) now (id u) s) as Hrem.
    cbv zeta in Hrem. fold rateLimit_limit in Hrem.
    destruct (success _).
    + unfold passedOnFor in Hm.
      destruct (legalHeaderValue (id u)) eqn:Hid; [|done].
      destruct (legalHeaderValue (nullish _ _)) eqn:Hmail; [|done].
      injection Hm as <-. split; [done|].
      exists (remaining (rateLimit_limit now (id u) s).1).
      destruct (forwarded_subject_headers
                  (toString (remaining (rateLimit_limit now (id u) s).1))
                  (headerValueNormalize (id u))
                  (headerValueNormalize (nullish (email u) EmptyString)))
        as (H1 & H2 & H3).
      split; [exact H1|]. split; [exact Hrem|]. exists u.
      split; [done|]. split; [done|]. split; [done|].
      split; [exact H2|exact H3].
    + unfold tooManyRequests in Hm.
      destruct (reset _) as [resetAt|]; [|done].
      destruct (toISOString resetAt); [|done].
      injection Hm as <-. discriminate Hbody.
Qed.

(** X13.  With the answer of the Supabase client taken as given (the
    verifier), and the timestamps in the store and the clock reading time
    values, the middleware returns a response or throws the [TypeError] of
    [Headers.set], and it throws exactly on the pass-on path of a
    protected request whose verified subject has an id or an email that is
    no header value.  The limiter has then already logged the request: it
    counts against the subject although no response is produced.  The
    store that is left holds time values only. *)
Theorem middleware_outcome env req now now' s :
  valid_store s → Z.abs (now + 10 * 1000) ≤ maxTime →
  let outcome := (middleware getUser env req now now' s).1 in
  let store := (middleware getUser env req now now' s).2 in
  ((∃ res, outcome = Responded res) ∨ outcome = Threw TypeError)
  ∧ (outcome = Threw TypeError ↔
     isPublicRoute (pathname req) = false
     ∧ configured env = true
     ∧ ∃ u, verified getUser env req = Some u
            ∧ success (rateLimit_limit now (id u) s).1 = true
            ∧ legalHeaderValue (id u)
              && legalHeaderValue (nullish (email u) EmptyString) = false)
  ∧ (outcome = Threw TypeError →
     ∃ u, verified getUser env req = Some u ∧ now ∈ log (id u) store)
  ∧ valid_store store.
Proof.
  intros Hvalid Hnow outcome store. unfold outcome, store.
  assert (Hcheck : ∀ L ident,
            0 < L →
            (∀ fields limit,
               success (createRateLimiter L (10 * 1000) now ident s).1 = false →
               ∃ res, tooManyRequests fields limit
                        (createRateLimiter L (10 * 1000) now ident s).1 now'
                      = Responded res)
            ∧ valid_store (createRateLimiter L (10 * 1000) now ident s).2).
  { intros L ident HL. split.
    - intros fields limit Hrej.
      destruct (refusal_reset L (10 * 1000) now ident s HL Hrej)
        as (_ & o & Ho & Hr).
      specialize (Hvalid ident). rewrite Forall_forall in Hvalid.
      destruct (toISOString_valid (o + 10 * 1000) (Hvalid o Ho)) as [iso Hiso].
      unfold tooManyRequests. rewrite Hr, Hiso. by eexists.
    - intros ident'. destruct (decide (ident = ident')) as [<-|Hne].
      + rewrite log_after. apply Forall_app. split.
        * apply Forall_forall. intros t [Ht _]%elem_of_survivors.
          specialize (Hvalid ident). rewrite Forall_forall in Hvalid.
          by apply Hvalid.
        * destruct (success _); [by apply Forall_singleton|constructor].
      + rewrite log_after_ne by done. apply Hvalid. }
  destruct (isPublicRoute (pathname req)) eqn:Hpub.
  - rewrite middleware_public by done. cbv zeta. simpl.
    destruct (Hcheck 10 (sourceAddress req) ltac:(lia)) as [Hthrow Hv].
    fold publicRateLimit_limit in Hthrow.
    assert (∃ res,
              (if success (publicRateLimit_limit now (sourceAddress req) s).1
               then Responded
                      (put_header "X-RateLimit-Remaining"
                         (toString (remaining
                            (publicRateLimit_limit now (sourceAddress req) s).1))
                         (securityHeaders NextResponse_next))
               else tooManyRequests
                      [("error", "Too many requests. Please try again later.")]%string
                      "10" (publicRateLimit_limit now (sourceAddress req) s).1
                      now')
              = Responded res) as [res ->].
    { destruct (success _); [by eexists|by apply Hthrow]. }
    split; [left; by eexists|]. split; [|split; [done|exact Hv]].
    split; [done|]. by intros [? _].
  - destruct (configured env) eqn:Hconf.
    2:{ rewrite middleware_unconfigured by done. simpl.
        split; [left; by eexists|]. split; [|by split].
        split; [done|]. by intros (_ & ? & _). }
    destruct (verified getUser env req) as [u|] eqn:Hver.
    2:{ rewrite middleware_unverified by done. simpl.
        split; [left; by eexists|]. split; [|by split].
        split; [done|]. by intros (_ & _ & ? & ? & _). }
    rewrite (middleware_verified getUser env req now now' s u) by done.
    cbv zeta. simpl.
    destruct (Hcheck 50 (id u) ltac:(lia)) as [Hthrow Hv].
    fold rateLimit_limit in Hthrow, Hv.
    pose proof (log_after 50 (10 * 1000) now (id u) s) as Hlog.
    fold rateLimit_limit in Hlog.
    destruct (success (rateLimit_limit now (id u) s).1) eqn:Hok.
    + unfold passedOnFor.
      destruct (legalHeaderValue (id u)
                && legalHeaderValue (nullish (email u) EmptyString)) eqn:Hlegal.
      * split; [left; by eexists|]. split; [|by split].
        split; [done|]. intros (_ & _ & u' & [= <-] & _ & Hno). congruence.
      * split; [by right|]. split; [|split; [|exact Hv]].
        -- split; [intros _|done]. split; [done|]. split; [done|].
           by exists u.
        -- intros _. exists u. split; [done|]. rewrite Hlog.
           apply elem_of_app. right. by apply list_elem_of_singleton.
    + destruct (Hthrow
                  [("error", "Too many requests");
                   ("message",
                     "Rate limit exceeded. Please try again later.")]%string
                  "50"%string eq_refl) as [res ->].
      split; [left; by eexists|]. split; [|by split].
      split; [done|]. intros (_ & _ & u' & [= <-] & Hyes & _). congruence.
Qed.

End PassedOn.

Lemma passed_on_reports_quota_witness :
  ∃ res,
    (middleware sampleVerifier sampleEnv signedRequest 50 51 ∅).1
    = Responded res
    ∧ status res = 200
    ∧ headers_get "X-RateLimit-Remaining" (resHeaders res) = Some "49"%string
    ∧ headers_get "X-User-Id" (resHeaders res) = Some "user-42"%string
    ∧ ∃ left, headers_get "X-RateLimit-Remaining" (resHeaders res)
              = Some (toString left)
              ∧ 0 ≤ left < 50
              ∧ ∃ u, verified sampleVerifier sampleEnv signedRequest = Some u
                     ∧ legalHeaderValue (id u) = true
                     ∧ legalHeaderValue (nullish (email u) EmptyString) = true
                     ∧ headers_get "X-User-Id" (resHeaders res)
                       = Some (headerValueNormalize (id u))
                     ∧ headers_get "X-User-Email" (resHeaders res)
                       = Some (headerValueNormalize
                                 (nullish (email u) EmptyString)).
Proof.
  assert (∃ res, (middleware sampleVerifier sampleEnv signedRequest 50 51 ∅).1
                 = Responded res) as [res Hres] by (eexists; reflexivity).
  assert (body res = PassOn
          ∧ headers_get "X-RateLimit-Remaining" (resHeaders res)
            = Some "49"%string
          ∧ headers_get "X-User-Id" (resHeaders res)
            = Some "user-42"%string) as (Hbody & H49 & Hid).
  { vm_compute in Hres. injection Hres as <-. by vm_compute. }
  exists res. split; [exact Hres|].
  destruct (passed_on_reports_quota sampleVerifier sampleEnv signedRequest
              50 51 ∅ res Hres Hbody) as [Hst Hleft].
  split; [exact Hst|]. split; [exact H49|]. split; [exact Hid|exact Hleft].
Defined.

Lemma middleware_outcome_witness :
  let outcome :=
    (middleware newlineVerifier sampleEnv signedRequest 50 51 fullStore49).1 in
  let store :=
    (middleware newlineVerifier sampleEnv signedRequest 50 51 fullStore49).2 in
  valid_store fullStore49
  ∧ outcome = Threw TypeError
  ∧ log "user-42" store = seqZ 1 49 ++ [50]
  ∧ ((∃ res, outcome = Responded res) ∨ outcome = Threw TypeError)
  ∧ (outcome = Threw TypeError ↔
     isPublicRoute (pathname signedRequest) = false
     ∧ configured sampleEnv = true
     ∧ ∃ u, verified newlineVerifier sampleEnv signedRequest = Some u
            ∧ success (rateLimit_limit 50 (id u) fullStore49).1 = true
            ∧ legalHeaderValue (id u)
              && legalHeaderValue (nullish (email u) EmptyString) = false)
  ∧ (outcome = Threw TypeError →
     ∃ u, verified newlineVerifier sampleEnv signedRequest = Some u
          ∧ 50 ∈ log (id u) store)
  ∧ valid_store store.
Proof.
  intros outcome store.
  split; [exact fullStore49_valid|]. split; [by vm_compute|].
  split; [by vm_compute|].
  apply (middleware_outcome newlineVerifier sampleEnv signedRequest 50 51
           fullStore49 fullStore49_valid).
  unfold maxTime. lia.
Defined.

(** ** The public paths of the source *)

(** X14.  With the patterns of the source a path is public exactly when it
    is [/api/health], to the letter, or starts with [/api/webhooks]: the
    bare [/api/webhooks] and paths that go on without a slash are public
    too, [/api/health/] and paths in another case are not. *)
Theorem public_paths pathname :
  (isPublicRoute pathname = true ↔
   pathname = "/api/health"%string
   ∨ ∃ rest, pathname = ("/api/webhooks" +:+ rest)%string)
  ∧ isPublicRoute "/api/health/" = false
  ∧ isPublicRoute "/API/health" = false
  ∧ isPublicRoute "/api/webhooks" = true.
Proof.
  split; [|by repeat split].
  change (isPublicRoute pathname) with (someRoute PUBLIC_ROUTES pathname).
  unfold someRoute, PUBLIC_ROUTES. simpl. rewrite orb_false_r, orb_true_iff.
  change (routeMatches pathname "/api/health")
    with (String.eqb pathname "/api/health").
  change (routeMatches pathname "/api/webhooks/*")
    with (startsWith pathname "/api/webhooks").
  by rewrite String.eqb_eq, startsWith_spec.
Qed.

(** ** The helper of the route handlers *)

Section Helper.

Context {Profile : Type}.
Variable selectProfile : string → AuthHelper.QueryResult Profile.

Implicit Types (req : NextRequest).

(** X15.  [getAuthenticatedUser] takes the caller's identity from the
    [X-User-Id] header of the request and from nothing else: requests with
    the same value of that header get the same answer, whatever their
    [Authorization] header, address or path; a request without the header,
    or with an empty one, gets [null] whatever the database holds. *)
Theorem helper_reads_one_header req req' :
  headers_get "X-User-Id" (headers req')
  = headers_get "X-User-Id" (headers req) →
  AuthHelper.getAuthenticatedUser selectProfile req'
  = AuthHelper.getAuthenticatedUser selectProfile req
  ∧ (falsy (headers_get "X-User-Id" (headers req)) = true →
     AuthHelper.getAuthenticatedUser selectProfile req = None)
  ∧ ∀ v, headers_get "X-User-Id" (headers req) = Some v → v ≠ EmptyString →
         AuthHelper.getAuthenticatedUser selectProfile req
         = match AuthHelper.queryError (selectProfile v) with
           | Some _ => None
           | None => AuthHelper.data (selectProfile v)
           end.
Proof.
  intros Hsame. unfold AuthHelper.getAuthenticatedUser. cbv zeta.
  rewrite Hsame. split; [done|]. split.
  - by intros ->.
  - intros v -> Hv. simpl.
    destruct (String.eqb_spec v EmptyString); done.
Qed.

(** X16.  The helper behind the gate.  Step 6 of the middleware writes
    [X-User-Id] "for downstream route handlers".  When the request a
    handler is given carries the [X-User-Id] the middleware wrote for the
    verified subject [u], [getAuthenticatedUser] selects the profile by
    [u]'s id as [Headers.set] wrote it (without leading and trailing
    whitespace), whatever [X-User-Id] the client's own request carried;
    and for a subject whose id is then empty it answers [null], although
    the gate passed the request on. *)
Theorem helper_behind_the_gate getUser env req handled now now' (s : Store)
    u res :
  isPublicRoute (pathname req) = false →
  configured env = true →
  verified getUser env req = Some u →
  (middleware getUser env req now now' s).1 = Responded res →
  body res = PassOn →
  headers_get "X-User-Id" (headers handled)
  = headers_get "X-User-Id" (resHeaders res) →
  AuthHelper.getAuthenticatedUser selectProfile handled
  = if String.eqb (headerValueNormalize (id u)) EmptyString then None
    else
      match AuthHelper.queryError (selectProfile (headerValueNormalize (id u)))
      with
      | Some _ => None
      | None => AuthHelper.data (selectProfile (headerValueNormalize (id u)))
      end.
Proof.
  intros Hpub Hconf Hver Hm Hbody Hcarried.
  rewrite (middleware_verified getUser env req now now' s u) in Hm by done.
  cbv zeta in Hm. simpl in Hm.
  assert (headers_get "X-User-Id" (resHeaders res)
          = Some (headerValueNormalize (id u))) as Hid.
  { destruct (success _).
    - unfold passedOnFor in Hm. destruct (_ && _); [|done].
      injection Hm as <-.
      apply (forwarded_subject_headers
               (toString (remaining (rateLimit_limit now (id u) s).1))
               (headerValueNormalize (id u))
               (headerValueNormalize (nullish (email u) EmptyString))).
    - unfold tooManyRequests in Hm.
      destruct (reset _) as [resetAt|]; [|done].
      destruct (toISOString resetAt); [|done].
      injection Hm as <-. discriminate Hbody. }
  unfold AuthHelper.getAuthenticatedUser. cbv zeta.
  rewrite Hcarried, Hid. simpl.
  by destruct (String.eqb _ _).
Qed.

End Helper.

Lemma helper_reads_one_header_witness :
  let profiles := λ ident : string,
    {| AuthHelper.data := Some ident; AuthHelper.queryError := None |} in
  let req := {| pathname := "/api/protected/example"; ip := None;
                headers := headers_of [("X-User-Id", "user-42")]%string |} in
  let req' := {| pathname := "/api/other"; ip := Some "1.2.3.4"%string;
                 headers := headers_of [("x-user-id", "user-42");
                                        ("Authorization", "none")]%string |} in
  AuthHelper.getAuthenticatedUser profiles req'
  = AuthHelper.getAuthenticatedUser profiles req
  ∧ AuthHelper.getAuthenticatedUser profiles req = Some "user-42"%string
  ∧ AuthHelper.getAuthenticatedUser profiles bareRequest = None.
Proof.
  split; [|by split].
  apply (helper_reads_one_header
           (λ ident : string,
              {| AuthHelper.data := Some ident; AuthHelper.queryError := None |})
           {| pathname := "/api/protected/example"; ip := None;
              headers := headers_of [("X-User-Id", "user-42")]%string |}).
  reflexivity.
Defined.

Lemma helper_behind_the_gate_witness :
  let profiles := λ ident : string,
    {| AuthHelper.data := Some ident; AuthHelper.queryError := None |} in
  let req := {| pathname := "/api/protected/example"; ip := None;
                headers := headers_of [("Authorization", "Bearer good-token");
                                       ("X-User-Id", "user-7")]%string |} in
  let handled := {| pathname := "/api/protected/example"; ip := None;
                    headers := headers_of [("x-user-id", "user-42")]%string |} in
  ∃ res,
    (middleware sampleVerifier sampleEnv req 50 51 ∅).1 = Responded res
    ∧ body res = PassOn
    ∧ headers_get "X-User-Id" (headers handled)
      = headers_get "X-User-Id" (resHeaders res)
    ∧ AuthHelper.getAuthenticatedUser profiles handled = Some "user-42"%string.
Proof.
  intros profiles req handled.
  assert (∃ res, (middleware sampleVerifier sampleEnv req 50 51 ∅).1
                 = Responded res) as [res Hres] by (eexists; reflexivity).
  assert (body res = PassOn
          ∧ headers_get "X-User-Id" (headers handled)
            = headers_get "X-User-Id" (resHeaders res)) as [Hbody Hcarried].
  { vm_compute in Hres. injection Hres as <-. by vm_compute. }
  exists res. split; [exact Hres|]. split; [exact Hbody|].
  split; [exact Hcarried|].
  rewrite (helper_behind_the_gate profiles sampleVerifier sampleEnv req handled
             50 51 ∅ sampleUser res eq_refl eq_refl eq_refl Hres Hbody
             Hcarried).
  reflexivity.
Defined.

(** ** The checkout route *)

Section CheckoutRoute.

Import Checkout.

Variable getUser : string → Completion UserResponse.
Variable selectProfile : string → Completion (option ProfileRow).
Variable customersCreate : option string → string → Completion string.
Variable updateProfile : string → string → Completion unit.
Variable sessionsCreate : SessionParams → Completion Session.
Variable baseUrlEnv : option string.
Variable destructuringNull : string.

Local Abbreviation post :=
  (POST getUser selectProfile customersCreate updateProfile sessionsCreate
     baseUrlEnv destructuringNull).

Lemma replace_unfold pattern replacement s :
  replace pattern replacement s
  = if startsWith s pattern then
      replacement
      +:+ String.substring (String.length pattern)
            (String.length s - String.length pattern) s
    else
      match s with
      | EmptyString => EmptyString
      | String c s' => String c (replace pattern replacement s')
      end.
Proof. by destruct s. Qed.

Lemma substring_all s : String.substring 0 (String.length s) s = s.
Proof. induction s as [|c s IH]; simpl; [done|by rewrite IH]. Qed.

Lemma substring_after p s :
  String.substring (String.length p) (String.length s) (p +:+ s) = s.
Proof.
  induction p as [|c p IH]; [rewrite append_nil; apply substring_all|].
  rewrite append_cons. simpl. exact IH.
Qed.

(** Replacing a pattern the string starts with takes that prefix off. *)
Lemma replace_prefix pattern replacement s :
  replace pattern replacement (pattern +:+ s) = replacement +:+ s.
Proof.
  rewrite replace_unfold.
  assert (startsWith (pattern +:+ s) pattern = true) as ->
    by (apply startsWith_spec; by exists s).
  rewrite append_length.
  replace (String.length pattern + String.length s - String.length pattern)%nat
    with (String.length s) by lia.
  by rewrite substring_after.
Qed.

(** Runs the handler: one case for each way through it. *)
Ltac step_post :=
  match goal with
  | |- context [json ?r] => destruct (json r) as [[?|]|?] eqn:?
  | |- context [falsy (priceId ?b)] => destruct (falsy (priceId b)) eqn:?
  | |- context [falsy (headers_get "authorization" ?h)] =>
      destruct (falsy (headers_get "authorization" h)) eqn:?
  | |- context [getUser ?t] => destruct (getUser t) as [?|?] eqn:?
  | |- context [error ?r] => destruct (error r) eqn:?
  | |- context [user ?r] => destruct (user r) eqn:?
  | |- context [selectProfile ?u] => destruct (selectProfile u) as [?|?] eqn:?
  | |- context [falsy (?p ≫= stripe_customer_id)] =>
      destruct (falsy (p ≫= stripe_customer_id)) eqn:?
  | |- context [customersCreate ?e ?u] =>
      destruct (customersCreate e u) as [?|?] eqn:?
  | |- context [updateProfile ?u ?c] =>
      destruct (updateProfile u c) as [[]|?] eqn:?
  | |- context [sessionsCreate ?p] => destruct (sessionsCreate p) as [?|?] eqn:?
  end; simpl.

Ltac run_post :=
  unfold POST, bind, ret, throw, await; unfold respond; cbv zeta;
  repeat step_post.

(** X17.  The checkout route validates before it calls anything: a request
    whose body has no (or an empty) [priceId] is answered 400 "priceId is
    required", and one with a [priceId] but no (or an empty) authorization
    header 401 "Missing authorization header"; in both cases no call to
    Supabase or Stripe has been made.  A request lacking both is answered
    400. *)
Theorem checkout_validates_first request body :
  json request = Returned (Some body) →
  falsy (priceId body) = true
  ∨ falsy (headers_get "authorization" (postHeaders request)) = true →
  post request
  = (if falsy (priceId body)
     then {| replyStatus := 400; replyBody := ErrorBody "priceId is required" |}
     else {| replyStatus := 401;
             replyBody := ErrorBody "Missing authorization header" |},
     []).
Proof.
  intros Hjson Hmissing. unfold POST, bind, ret, respond. rewrite Hjson.
  destruct (falsy (priceId body)); [done|].
  destruct Hmissing as [Hprice| ->]; done.
Qed.

(** X18.  The checkout route answers with 200, 400, 401 or 500; a request
    it turns away with 400 or 401 has cost at most the verification of
    its token: no profile was read, no Stripe customer or session
    created, no profile written.  A 200 carries the URL and the id of the
    session that the last call made created. *)
Theorem checkout_turns_away_cleanly request :
  let answer :=
    POST getUser selectProfile customersCreate updateProfile sessionsCreate
      baseUrlEnv destructuringNull request in
  let reply := answer.1 in
  let calls := answer.2 in
  replyStatus reply ∈ [200; 400; 401; 500]
  ∧ (replyStatus reply = 400 ∨ replyStatus reply = 401 →
     calls = [] ∨ ∃ token, calls = [AuthGetUser token])
  ∧ (replyStatus reply = 200 →
     ∃ params session,
       last calls = Some (SessionsCreate params)
       ∧ sessionsCreate params = Returned session
       ∧ replyBody reply = SessionBody (url session) (sessionId session)).
Proof.
  run_post;
    (split; [rewrite !elem_of_cons; auto 10|]);
    (split; [intros [?|?]; try done; eauto|intros ?; try done; eauto]).
Qed.

(** X19.  The client service and the route agree on the token: when the
    authorization header is the one [StripeService.createCheckoutSession]
    builds from an access token, the route's first call asks Supabase to
    verify exactly that token. *)
Theorem checkout_verifies_the_sent_token request body access_token :
  json request = Returned (Some body) →
  falsy (priceId body) = false →
  headers_get "authorization" (postHeaders request) = Some (bearer access_token) →
  head (post request).2 = Some (AuthGetUser access_token).
Proof.
  intros Hjson Hprice Hheader. unfold POST, bind, ret, respond, throw, await.
  rewrite Hjson, Hprice, Hheader.
  assert (falsy (Some (bearer access_token)) = false) as ->
    by (unfold bearer, falsy; by rewrite append_cons).
  cbn [nullish]. unfold bearer. rewrite replace_prefix, append_nil. simpl.
  by repeat step_post.
Qed.

Ltac in_calls H :=
  repeat first
    [ apply elem_of_nil in H; destruct H
    | apply elem_of_cons in H as [H|H]; [simplify_eq/=|] ].

(** X20.  The calls of the checkout route come in one order, and all
    concern the user the token was verified as.  A Stripe customer is
    created only as the third call, after the verification of the token
    and the reading of that user's profile, with that user's email and id,
    and only when the profile holds no customer id.  A session is created
    only as the last call: for the customer of the profile when it has
    one, the calls then being verification, profile, session; otherwise
    for the customer just created for that user, after its id has been
    written to that user's profile. *)
Theorem checkout_customer request :
  let calls := (post request).2 in
  let token :=
    replace "Bearer " ""
      (nullish (headers_get "authorization" (postHeaders request))
         EmptyString) in
  (∀ address uid, CustomersCreate address uid ∈ calls →
     ∃ response u profile rest,
       getUser token = Returned response
       ∧ error response = None
       ∧ user response = Some u
       ∧ uid = id u
       ∧ address = email u
       ∧ selectProfile (id u) = Returned profile
       ∧ falsy (profile ≫= stripe_customer_id) = true
       ∧ calls = [AuthGetUser token; SelectProfile (id u);
                  CustomersCreate (email u) (id u)] ++ rest)
  ∧ (∀ params, SessionsCreate params ∈ calls →
     ∃ response u profile,
       getUser token = Returned response
       ∧ error response = None
       ∧ user response = Some u
       ∧ selectProfile (id u) = Returned profile
       ∧ if falsy (profile ≫= stripe_customer_id)
         then customersCreate (email u) (id u) = Returned (customer params)
              ∧ updateProfile (id u) (customer params) = Returned tt
              ∧ calls = [AuthGetUser token; SelectProfile (id u);
                         CustomersCreate (email u) (id u);
                         UpdateProfile (id u) (customer params);
                         SessionsCreate params]
         else profile ≫= stripe_customer_id = Some (customer params)
              ∧ calls = [AuthGetUser token; SelectProfile (id u);
                         SessionsCreate params]).
Proof.
  run_post; (split; [intros address uid Hin|intros params' Hin]);
    in_calls Hin.
  all: try (do 4 eexists; do 7 (split; [done|]); reflexivity).
  all: do 3 eexists; (split; [reflexivity|]); do 3 (split; [eassumption|]).
  all: match goal with H : falsy (_ ≫= _) = _ |- _ => rewrite H end.
  all: try (split; [eassumption|]; split; [eassumption|reflexivity]).
  all: split; [by destruct (_ ≫= _)|reflexivity].
Qed.


(** X22.  A call that throws is the last call the route makes, and the
    reply is the 500 of the [catch] clause with the message thrown. *)
Theorem checkout_stops_at_a_throw request call error :
  call ∈ (post request).2 →
  threw getUser selectProfile customersCreate updateProfile sessionsCreate
    call error →
  last (post request).2 = Some call ∧ (post request).1 = caught error.
Proof.
  run_post; intros Hin Hthrew; in_calls Hin; split; congruence.
Qed.

(** X23.  The route answers 500 exactly when the body could not be read
    as an object or one of the calls it made threw. *)
Theorem checkout_500 request :
  replyStatus (post request).1 = 500
  ↔ (∀ body, json request ≠ Returned (Some body))
    ∨ ∃ call error,
        call ∈ (post request).2
        ∧ threw getUser selectProfile customersCreate updateProfile
            sessionsCreate call error.
Proof.
  run_post; (split; [intros Hstatus; try discriminate Hstatus|]).
  all: try (intros _; reflexivity).
  all: try (left; intros body'; congruence).
  all: try (right; do 2 eexists; split;
            [rewrite !elem_of_cons; auto 10|simpl; eassumption]).
  all: intros [Hbody|(call & error & Hin & Hthrew)];
    [ by edestruct Hbody | in_calls Hin; congruence ].
Qed.

End CheckoutRoute.

Lemma checkout_validates_first_witness :
  Checkout.json anonymousPost = Checkout.Returned (Some sampleCheckout)
  ∧ (falsy (Checkout.priceId sampleCheckout) = true
     ∨ falsy (headers_get "authorization" (Checkout.postHeaders anonymousPost))
       = true)
  ∧ samplePOST anonymousPost
    = ({| Checkout.replyStatus := 401;
          Checkout.replyBody :=
            Checkout.ErrorBody "Missing authorization header" |}, []).
Proof.
  split; [reflexivity|]. split; [right; reflexivity|].
  apply (checkout_validates_first sampleGetUser sampleSelectProfile
           sampleCustomersCreate sampleUpdateProfile sampleSessionsCreate None
           destructuringNullMessage anonymousPost sampleCheckout);
    [reflexivity|right; reflexivity].
Defined.

Lemma checkout_verifies_the_sent_token_witness :
  Checkout.json samplePost = Checkout.Returned (Some sampleCheckout)
  ∧ falsy (Checkout.priceId sampleCheckout) = false
  ∧ headers_get "authorization" (Checkout.postHeaders samplePost)
    = Some (Checkout.bearer "good-token")
  ∧ head (samplePOST samplePost).2 = Some (Checkout.AuthGetUser "good-token").
Proof.
  split; [reflexivity|]. split; [reflexivity|]. split; [by vm_compute|].
  apply (checkout_verifies_the_sent_token sampleGetUser sampleSelectProfile
           sampleCustomersCreate sampleUpdateProfile sampleSessionsCreate None
           destructuringNullMessage samplePost sampleCheckout "good-token");
    [reflexivity|reflexivity|by vm_compute].
Defined.


Lemma checkout_stops_at_a_throw_witness :
  let post :=
    Checkout.POST sampleGetUser sampleSelectProfile sampleCustomersCreate
      sampleUpdateProfile failingSessionsCreate None destructuringNullMessage in
  let call := Checkout.SessionsCreate sampleParams in
  let error := Checkout.ErrorObject "No such price: 'price_1'" in
  call ∈ (post samplePost).2
  ∧ threw sampleGetUser sampleSelectProfile sampleCustomersCreate
      sampleUpdateProfile failingSessionsCreate call error
  ∧ last (post samplePost).2 = Some call
  ∧ (post samplePost).1
    = {| Checkout.replyStatus := 500;
         Checkout.replyBody := Checkout.ErrorBody "No such price: 'price_1'" |}.
Proof.
  intros post call error.
  assert (call ∈ (post samplePost).2) as Hin.
  { apply (list_elem_of_lookup_2 _ 4%nat). vm_compute. reflexivity. }
  split; [exact Hin|]. split; [reflexivity|].
  exact (checkout_stops_at_a_throw sampleGetUser sampleSelectProfile
           sampleCustomersCreate sampleUpdateProfile failingSessionsCreate None
           destructuringNullMessage samplePost call error Hin eq_refl).
Defined.
